(** * Masterblog API: the in-memory post store of [backend/backend_app.py]

    A shallow embedding of the Flask handlers ([handle_posts], [delete],
    [update], [search]) and of the helper [sort_posts], followed by the
    properties of the store.

    Conventions of the embedding.
    - A post is a Python [dict] with string keys: [gmap string json].
    - The module-level list [POSTS] is threaded explicitly: every handler
      takes the list and returns the response together with the list it
      leaves behind.
    - An uncaught Python exception ([KeyError], [AttributeError],
      [TypeError]; Flask answers 500) is the result [Raised].
    - Text is a [string] of 8-bit code units; [str.lower] is modelled on the
      ASCII letters and Python's [<] on [str] is [String.ltb]
      (lexicographic on code units).
    - JSON numbers are integers. *)

From Stdlib Require Import ZArith List Ascii String Bool Sorted Permutation Lia.
From stdpp Require Import base option list sorting gmap strings pretty.

Local Open Scope string_scope.
Local Open Scope list_scope.
Local Open Scope Z_scope.

(** ** Python values and exceptions *)

Module Py.

(** The values [json.loads] produces. *)
#[warnings="-register-all"]
Inductive json : Type :=
  | JNull
  | JBool (b : bool)
  | JInt (n : Z)
  | JStr (s : string)
  | JArr (items : list json)
  | JObj (fields : list (string * json)).

Abbreviation dict := (gmap string json).

(** The outcome of evaluating Python code that may raise. *)
Inductive result (A : Type) : Type :=
  | Ok (a : A)
  | Raised.
Arguments Ok {A} a.
Arguments Raised {A}.

#[global] Instance result_ret : MRet result := λ A a, Ok a.
#[global] Instance result_bind : MBind result := λ A B f r,
  match r with
  | Ok a => f a
  | Raised => Raised
  end.

(** [bool(v)]: [None], [False], [0], the empty string and the empty
    containers are falsy. *)
Definition truthy (v : json) : bool :=
  match v with
  | JNull => false
  | JBool b => b
  | JInt n => negb (n =? 0)
  | JStr s => negb (String.eqb s "")
  | JArr items => negb (Nat.eqb (List.length items) 0)
  | JObj fields => negb (Nat.eqb (List.length fields) 0)
  end.

(** [d[k]] raises [KeyError] on a missing key. *)
Definition getitem (d : dict) (k : string) : result json :=
  match d !! k with
  | Some v => Ok v
  | None => Raised
  end.

(** [d.get(k)] yields [None] on a missing key. *)
Definition get (d : dict) (k : string) : json :=
  match d !! k with
  | Some v => v
  | None => JNull
  end.

Fixpoint assoc (k : string) (fields : list (string * json)) : option json :=
  match fields with
  | [] => None
  | (k', v) :: rest => if String.eqb k k' then Some v else assoc k rest
  end.

(** [a == b] on decoded JSON: [bool] is a subtype of [int], sequences
    compare element-wise, objects compare key-wise. *)
Fixpoint py_eq (a b : json) {struct a} : bool :=
  match a, b with
  | JNull, JNull => true
  | JBool x, JBool y => Bool.eqb x y
  | JBool x, JInt n => Z.b2z x =? n
  | JInt m, JBool y => m =? Z.b2z y
  | JInt m, JInt n => m =? n
  | JStr s, JStr t => String.eqb s t
  | JArr xs, JArr ys =>
      (fix go (xs ys : list json) {struct xs} : bool :=
         match xs, ys with
         | [], [] => true
         | x :: xs', y :: ys' => py_eq x y && go xs' ys'
         | _, _ => false
         end) xs ys
  | JObj fs, JObj gs =>
      Nat.eqb (List.length fs) (List.length gs) &&
      (fix go (fs : list (string * json)) {struct fs} : bool :=
         match fs with
         | [] => true
         | (k, v) :: fs' =>
             match assoc k gs with
             | Some w => py_eq v w && go fs'
             | None => false
             end
         end) fs
  | _, _ => false
  end.

(** [a == b] on two posts: same keys, equal values. *)
Definition dict_eq (a b : dict) : bool :=
  bool_decide (dom a = dom b) &&
  forallb (λ kv, match b !! kv.1 with
                 | Some w => py_eq kv.2 w
                 | None => false
                 end) (map_to_list a).

(** The value as an [int] operand; anything but [int] and [bool] makes the
    arithmetic or the comparison raise [TypeError]. *)
Definition as_int (v : json) : result Z :=
  match v with
  | JInt n => Ok n
  | JBool b => Ok (Z.b2z b)
  | _ => Raised
  end.

(** [str.lower] on one code unit. *)
Definition lower_ascii (c : ascii) : ascii :=
  let n := N_of_ascii c in
  if ((65 <=? n) && (n <=? 90))%N then ascii_of_N (n + 32) else c.

Fixpoint lower (s : string) : string :=
  match s with
  | EmptyString => EmptyString
  | String c s' => String (lower_ascii c) (lower s')
  end.

(** [v.lower()]: only a [str] has the method, every other JSON value raises
    [AttributeError]. *)
Definition lower_method (v : json) : result string :=
  match v with
  | JStr s => Ok (lower s)
  | _ => Raised
  end.

(** [needle in hay] on [str]: [needle] occurs at some position of [hay]. *)
Fixpoint contains (needle hay : string) {struct hay} : bool :=
  String.prefix needle hay ||
  match hay with
  | EmptyString => false
  | String _ hay' => contains needle hay'
  end.

(** [max(xs)] of a non-empty sequence of ints, first maximal element. *)
Fixpoint py_max (x : Z) (xs : list Z) : Z :=
  match xs with
  | [] => x
  | y :: ys => py_max (if x <? y then y else x) ys
  end.

(** The stable ascending sort of [sorted], on the elements decorated with
    their keys; a new element is placed in front of the first element that
    is not smaller than it, so equal keys keep their order. *)
Section Sorting.
Context {A : Type}.

Fixpoint insert_sorted (x : string * A) (l : list (string * A)) : list (string * A) :=
  match l with
  | [] => [x]
  | y :: l' =>
      if String.ltb y.1 x.1 then y :: insert_sorted x l' else x :: y :: l'
  end.

Fixpoint sort_asc (l : list (string * A)) : list (string * A) :=
  match l with
  | [] => []
  | x :: l' => insert_sorted x (sort_asc l')
  end.

(** [sorted(xs, key=key, reverse=reverse)]: the keys are computed first,
    in order, and any raise of [key] aborts the call; with [reverse] the
    list is reversed before and after the ascending sort, which keeps
    elements with equal keys in their original order. *)
Fixpoint decorate (key : A → result string) (xs : list A) : result (list (string * A)) :=
  match xs with
  | [] => Ok []
  | x :: xs' =>
      k ← key x;
      rest ← decorate key xs';
      Ok ((k, x) :: rest)
  end.

Definition sorted (xs : list A) (key : A → result string) (reverse : bool) : result (list A) :=
  keyed ← decorate key xs;
  Ok (List.map snd (if reverse then List.rev (sort_asc (List.rev keyed)) else sort_asc keyed)).
End Sorting.

End Py.

Import Py.

(** ** The store and its handlers *)

Module Backend.

(** A JSON HTTP response: the argument of [jsonify] and the status code. *)
Inductive payload : Type :=
  | PObj (d : dict)
  | PList (posts : list dict).

Definition response : Type := payload * Z.

(** What a handler leaves behind: the response, or the exception that
    escaped, and the contents of [POSTS]. *)
Definition outcome : Type := result response * list dict.

Definition mk_post (id : Z) (title content : string) : dict :=
  {[ "id" := JInt id; "title" := JStr title; "content" := JStr content ]}.

Definition POSTS : list dict :=
  [ mk_post 1 "First post" "This is the first post.";
    mk_post 2 "Second post" "This is the second post.";
    mk_post 3 "Exploring Python" "Diving into the basics of Python and its versatility.";
    mk_post 4 "Learning Flask" "A beginner's guide to building web apps with Flask.";
    mk_post 5 "Understanding REST APIs" "Explaining the core principles behind RESTful APIs.";
    mk_post 6 "Working with JSON" "How to use JSON for data exchange between server and client.";
    mk_post 7 "Frontend vs Backend"
      "Discussing the differences between frontend and backend development.";
    mk_post 8 "Version Control 101" "An introduction to Git and why version control matters.";
    mk_post 9 "Debugging Tips" "Useful strategies to debug your code effectively.";
    mk_post 10 "Deploying Applications"
      "Steps to deploy your application in a production environment.";
    mk_post 11 "Intro to HTML" "Learn the basics of HTML for creating web pages.";
    mk_post 12 "CSS Styling" "A brief guide to styling web pages using CSS.";
    mk_post 13 "JavaScript Essentials" "Key concepts in JavaScript for dynamic web content.";
    mk_post 14 "Building Interactive UIs" "Techniques for making user interfaces engaging.";
    mk_post 15 "Responsive Design" "How to design web pages that look great on any device.";
    mk_post 16 "APIs in Action" "Examples of how APIs drive modern web applications.";
    mk_post 17 "Data Structures"
      "Understanding the fundamentals of data structures in programming.";
    mk_post 18 "Algorithm Basics"
      "An overview of common algorithms used in software development.";
    mk_post 19 "Coding Best Practices" "Tips for writing clean and maintainable code.";
    mk_post 20 "Introduction to Testing" "Why testing is crucial and how to get started with it.";
    mk_post 21 "Debugging Techniques" "Advanced techniques to troubleshoot and fix code issues.";
    mk_post 22 "Learning by Doing" "The importance of practical experience in mastering coding." ].

(** [sort_posts]: the key of a post is [post[sort_field].lower()]. *)
Definition sort_key (sort_field : string) (post : dict) : result string :=
  v ← getitem post sort_field;
  lower_method v.

Definition sort_posts (posts : list dict) (sort_field direction : string) : result (list dict) :=
  let reverse := String.eqb direction "desc" in
  sorted posts (sort_key sort_field) reverse.

(** The request of [handle_posts]: a [POST] with its decoded body
    ([None] when [get_json] yields [None]) or a [GET] with its query
    arguments. *)
Inductive request : Type :=
  | POST (body : option dict)
  | GET (args : gmap string string).

(** The generator [post['id'] for post in POSTS], read as the integers
    that [max] and [+ 1] need. *)
Fixpoint post_ids (posts : list dict) : result (list Z) :=
  match posts with
  | [] => Ok []
  | post :: rest =>
      v ← getitem post "id";
      n ← as_int v;
      ns ← post_ids rest;
      Ok (n :: ns)
  end.

(** [max(post['id'] for post in POSTS) + 1], or [1] on the empty list. *)
Definition next_id (posts : list dict) : result Z :=
  ids ← post_ids posts;
  match ids with
  | [] => Ok 1
  | n :: ns => Ok (py_max n ns + 1)
  end.

Definition error (msg : string) : payload := PObj {[ "error" := JStr msg ]}.
Definition message (msg : string) : payload := PObj {[ "message" := JStr msg ]}.

(** [bool(s)] of an optional query argument: [None] and the empty string
    are falsy. *)
Definition str_truthy (s : option string) : bool :=
  match s with
  | Some v => negb (String.eqb v "")
  | None => false
  end.

(** [s in l] on a list of strings. *)
Definition str_in (s : string) (l : list string) : bool :=
  existsb (String.eqb s) l.

Definition handle_posts (req : request) (posts : list dict) : outcome :=
  match req with
  | POST body =>
      match next_id posts with
      | Raised => (Raised, posts)
      | Ok next_id =>
          match body with
          | None => (Raised, posts)
          | Some new_post =>
              if negb (truthy (get new_post "title")) then
                (Ok (error "Missing Title", 400), posts)
              else if negb (truthy (get new_post "content")) then
                (Ok (error "Missing Content", 400), posts)
              else
                let new_post := <[ "id" := JInt next_id ]> new_post in
                (Ok (message "Created", 201), posts ++ [new_post])
          end
      end
  | GET args =>
      let sort_field := args !! "sort" in
      let direction := lower (default "asc" (args !! "direction")) in
      if str_truthy sort_field && negb (str_in (default "" sort_field) ["title"; "content"]) then
        (Ok (error "Invalid sort field. Allowed values are 'title' or 'content'.", 400), posts)
      else if negb (str_in direction ["asc"; "desc"]) then
        (Ok (error "Invalid sort direction. Allowed values are 'asc' or 'desc'.", 400), posts)
      else if str_truthy sort_field then
        match sort_posts posts (default "" sort_field) direction with
        | Ok sorted_posts => (Ok (PList sorted_posts, 200), posts)
        | Raised => (Raised, posts)
        end
      else (Ok (PList posts, 200), posts)
  end.

(** The [for] loop of [delete]: position and value of the first post with
    [id == post['id']]; a post without an ['id'] stops the scan with
    [KeyError]. *)
Fixpoint find_post (id : Z) (i : nat) (posts : list dict) : result (option (nat * dict)) :=
  match posts with
  | [] => Ok None
  | post :: rest =>
      v ← getitem post "id";
      if py_eq (JInt id) v then Ok (Some (i, post)) else find_post id (S i) rest
  end.

(** [POSTS.remove(post)], where [post] is the object at position [i]: the
    first element that is that very object or compares equal to it is
    removed; [ValueError] when there is none. *)
Fixpoint list_remove (i : nat) (post : dict) (j : nat) (l : list dict) : result (list dict) :=
  match l with
  | [] => Raised
  | el :: l' =>
      if Nat.eqb j i || dict_eq el post then Ok l'
      else
        rest ← list_remove i post (S j) l';
        Ok (el :: rest)
  end.

Definition delete (id : Z) (posts : list dict) : outcome :=
  match find_post id 0 posts with
  | Raised => (Raised, posts)
  | Ok (Some (i, post)) =>
      match list_remove i post 0 posts with
      | Raised => (Raised, posts)
      | Ok posts' =>
          (Ok (message ("Post with id " +:+ pretty id +:+ " has been deleted successfully."), 200),
           posts')
      end
  | Ok None =>
      (Ok (error ("Post with id " +:+ pretty id +:+ " was not found."), 404), posts)
  end.

(** The assignments of [update] on the post it found; [new_details[k]] is
    read only after [new_details.get(k)] was truthy, so the key is there. *)
Definition apply_details (new_details post : dict) : dict :=
  let post :=
    if truthy (get new_details "title")
    then <[ "title" := get new_details "title" ]> post else post in
  let post :=
    if truthy (get new_details "content")
    then <[ "content" := get new_details "content" ]> post else post in
  post.

(** The [for] loop of [update]: the first post with [post['id'] == id] is
    changed in place and returned; [None] when the loop runs to its end. *)
Fixpoint update_loop (id : Z) (new_details : dict) (posts : list dict)
    : result (option dict * list dict) :=
  match posts with
  | [] => Ok (None, [])
  | post :: rest =>
      v ← getitem post "id";
      if py_eq v (JInt id) then
        let post := apply_details new_details post in
        Ok (Some post, post :: rest)
      else
        r ← update_loop id new_details rest;
        Ok (r.1, post :: r.2)
  end.

(** [not new_details]: the body is [None] or an empty object. *)
Definition falsy_body (body : option dict) : bool :=
  match body with
  | None => true
  | Some d => Nat.eqb (size d) 0
  end.

Definition update (id : Z) (body : option dict) (posts : list dict) : outcome :=
  if falsy_body body then
    (Ok (error "Invalid or missing JSON data.", 400), posts)
  else
    let new_details := default ∅ body in
    match update_loop id new_details posts with
    | Raised => (Raised, posts)
    | Ok (Some post, posts') => (Ok (PObj post, 200), posts')
    | Ok (None, _) =>
        (Ok (error ("No post found with id " +:+ pretty id +:+ "."), 404), posts)
    end.

(** [query and query in post[field].lower()]: the field is read only when
    the query is not empty. *)
Definition field_matches (query field : string) (post : dict) : result bool :=
  if String.eqb query "" then Ok false
  else
    v ← getitem post field;
    text ← lower_method v;
    Ok (contains query text).

Fixpoint search_loop (title_query content_query : string)
    (posts list_of_posts : list dict) : result (list dict) :=
  match posts with
  | [] => Ok list_of_posts
  | post :: rest =>
      title_matches ← field_matches title_query "title" post;
      content_matches ← field_matches content_query "content" post;
      search_loop title_query content_query rest
        (if title_matches || content_matches then list_of_posts ++ [post] else list_of_posts)
  end.

Definition search (args : gmap string string) (posts : list dict) : outcome :=
  let title_query := lower (default "" (args !! "title")) in
  let content_query := lower (default "" (args !! "content")) in
  match search_loop title_query content_query posts [] with
  | Ok list_of_posts => (Ok (PList list_of_posts, 200), posts)
  | Raised => (Raised, posts)
  end.

End Backend.

Import Backend.

(** ** Vocabulary of the properties *)

(** The id of a stored post, when it is an integer. *)
Definition post_id (p : dict) : option Z :=
  match p !! "id" with
  | Some (JInt n) => Some n
  | _ => None
  end.

Definition id_of (p : dict) : Z := default 0 (post_id p).

Definition ids (posts : list dict) : list Z := List.map id_of posts.

(** Every record carries an integer id, as the seed records do and as
    [handle_posts] assigns them. *)
Definition int_ids (posts : list dict) : Prop :=
  Forall (λ p, is_Some (post_id p)) posts.

(** Title and content of the record are text. *)
Definition text_post (p : dict) : Prop :=
  ∃ t c, p !! "title" = Some (JStr t) ∧ p !! "content" = Some (JStr c).

(** The field is absent from the body, or supplied with an empty value. *)
Definition missing_or_empty (body : dict) (k : string) : Prop :=
  body !! k = None ∨ ∃ v, body !! k = Some v ∧ truthy v = false.

(** The field is supplied with a non-empty value [v]. *)
Definition supplied (body : dict) (k : string) (v : json) : Prop :=
  body !! k = Some v ∧ truthy v = true.

Definition status (r : outcome) : option Z :=
  match r.1 with
  | Ok (_, code) => Some code
  | Raised => None
  end.

(** The operation [list(sort_field, direction)] of the store. *)
Definition list_posts (sort_field direction : string) (posts : list dict) : outcome :=
  handle_posts (GET {[ "sort" := sort_field; "direction" := direction ]}) posts.

(** The lower-cased sort key of a record with a text field. *)
Definition key_of (sort_field : string) (p : dict) : string :=
  match p !! sort_field with
  | Some (JStr s) => lower s
  | _ => ""
  end.

(** A record decorated with its sort key. *)
Definition keyed (sort_field : string) (p : dict) : string * dict :=
  (key_of sort_field p, p).

(** The records of [l] whose sort key is [k], in the order of [l]. *)
Definition with_key (sort_field k : string) (l : list dict) : list dict :=
  List.filter (λ p, String.eqb (key_of sort_field p) k) l.

(** [x] may stand in front of [y] in an ascending result: the key of [y]
    is not smaller than the key of [x]. *)
Definition key_le {A : Type} (x y : string * A) : Prop :=
  String.ltb y.1 x.1 = false.

(** The same for two records and a sort field. *)
Definition not_after (sort_field : string) (p q : dict) : Prop :=
  String.ltb (key_of sort_field q) (key_of sort_field p) = false.

(** [needle] occurs in [hay] as a contiguous substring. *)
Definition occurs_in (needle hay : string) : Prop :=
  ∃ pre suf, hay = pre +:+ needle +:+ suf.

(** The matching rule of search, in the words of its description: the
    title contains the non-empty title query, or the content contains the
    non-empty content query, both compared case-insensitively. *)
Definition spec_matches (title_query content_query : string) (p : dict) : Prop :=
  (title_query ≠ "" ∧
     ∃ t, p !! "title" = Some (JStr t) ∧ occurs_in (lower title_query) (lower t)) ∨
  (content_query ≠ "" ∧
     ∃ c, p !! "content" = Some (JStr c) ∧ occurs_in (lower content_query) (lower c)).

(** The same rule as a test on a record with text fields. *)
Definition spec_matchb (title_query content_query : string) (p : dict) : bool :=
  (negb (String.eqb title_query "") &&
     contains (lower title_query) (key_of "title" p)) ||
  (negb (String.eqb content_query "") &&
     contains (lower content_query) (key_of "content" p)).

(** Sequences of create and delete calls. *)
Inductive op : Type :=
  | Create (body : option dict)
  | Delete (id : Z).

Definition run_op (posts : list dict) (o : op) : list dict :=
  match o with
  | Create body => (handle_posts (POST body) posts).2
  | Delete id => (delete id posts).2
  end.

Definition run (ops : list op) (posts : list dict) : list dict :=
  fold_left run_op ops posts.

(** Sequences of create, delete and update calls. *)
Inductive call : Type :=
  | CreateCall (body : option dict)
  | DeleteCall (id : Z)
  | UpdateCall (id : Z) (body : option dict).

Definition step (posts : list dict) (c : call) : list dict :=
  match c with
  | CreateCall body => (handle_posts (POST body) posts).2
  | DeleteCall id => (delete id posts).2
  | UpdateCall id body => (update id body posts).2
  end.

Definition steps (calls : list call) (posts : list dict) : list dict :=
  fold_left step calls posts.

(** Title and content of the record pass the test [if not post.get(...)]
    of create: they are present and not empty. *)
Definition filled (p : dict) : Prop :=
  truthy (get p "title") = true ∧ truthy (get p "content") = true.

(** The field of the record is present and is a [str]. *)
Definition text_field (k : string) (p : dict) : Prop :=
  ∃ s, p !! k = Some (JStr s).

(** ** Python helpers *)

Section PyFacts.

Lemma as_int_post_id (p : dict) (n : Z) :
  post_id p = Some n → getitem p "id" = Ok (JInt n).
Proof.
  unfold post_id, getitem. destruct (p !! "id") as [[]|]; congruence.
Qed.

Lemma post_id_lookup (p : dict) (n : Z) :
  post_id p = Some n ↔ p !! "id" = Some (JInt n).
Proof.
  unfold post_id. split.
  - destruct (p !! "id") as [[]|]; congruence.
  - intros ->. reflexivity.
Qed.

Lemma id_of_post_id (p : dict) :
  is_Some (post_id p) → post_id p = Some (id_of p).
Proof. intros [n Hn]. unfold id_of. rewrite Hn. reflexivity. Qed.

Lemma py_max_ge (xs : list Z) : ∀ x, x ≤ py_max x xs ∧ Forall (λ y, y ≤ py_max x xs) xs.
Proof.
  induction xs as [|y ys IH]; intros x; simpl.
  - split; [lia | constructor].
  - pose proof (IH (if x <? y then y else x)) as [H1 H2].
    destruct (Z.ltb_spec x y); (split; [lia | constructor; [lia | assumption]]).
Qed.

Lemma py_max_in (xs : list Z) : ∀ x, py_max x xs ∈ x :: xs.
Proof.
  induction xs as [|y ys IH]; intros x; simpl.
  - left.
  - pose proof (IH (if x <? y then y else x)) as Hin.
    destruct (x <? y).
    + right. exact Hin.
    + apply elem_of_cons in Hin as [-> | Hin]; [left | right; right; exact Hin].
Qed.

Lemma post_ids_int (posts : list dict) :
  int_ids posts → post_ids posts = Ok (ids posts).
Proof.
  induction 1 as [|p l Hp _ IH]; simpl; [reflexivity|].
  apply id_of_post_id in Hp.
  rewrite (as_int_post_id _ _ Hp). simpl.
  rewrite IH. reflexivity.
Qed.

End PyFacts.

(** ** Creating a post *)

Section Create.

Lemma next_id_int (posts : list dict) :
  int_ids posts →
  next_id posts =
    Ok (match ids posts with [] => 1 | n :: ns => py_max n ns + 1 end).
Proof.
  intros H. unfold next_id. rewrite (post_ids_int _ H). simpl.
  destruct (ids posts); reflexivity.
Qed.

Lemma next_id_fresh (posts : list dict) (n : Z) :
  int_ids posts → next_id posts = Ok n → Forall (λ x, x < n) (ids posts).
Proof.
  intros H. rewrite (next_id_int _ H).
  destruct (ids posts) as [|m ms]; intros [= <-]; [constructor|].
  destruct (py_max_ge ms m) as [H1 H2].
  constructor; [lia|].
  eapply Forall_impl; [exact H2|]. simpl. intros; lia.
Qed.

Lemma create_valid (posts : list dict) (new_post : dict) (n : Z) :
  next_id posts = Ok n →
  truthy (get new_post "title") = true →
  truthy (get new_post "content") = true →
  handle_posts (POST (Some new_post)) posts =
    (Ok (message "Created", 201), posts ++ [<[ "id" := JInt n ]> new_post]).
Proof.
  intros Hn Ht Hc. simpl. rewrite Hn, Ht, Hc. reflexivity.
Qed.

Lemma supplied_truthy (body : dict) (k : string) (v : json) :
  supplied body k v → truthy (get body k) = true.
Proof. intros [Hk Hv]. unfold get. rewrite Hk. exact Hv. Qed.

Lemma missing_or_empty_falsy (body : dict) (k : string) :
  missing_or_empty body k → truthy (get body k) = false.
Proof.
  unfold get. intros [-> | (v & -> & Hv)]; [reflexivity | exact Hv].
Qed.

Lemma seed_int_ids : int_ids POSTS.
Proof.
  unfold int_ids, POSTS.
  repeat (constructor; [eexists; vm_compute; reflexivity|]).
  constructor.
Qed.

(** C3: on a store whose records carry integer ids, the id computed for a
    new record is 1 on the empty store and otherwise one more than the
    greatest id present; it is therefore greater than every id present, and
    a create with a non-empty title and content stores its record under
    exactly that id. *)
Theorem next_id_is_max_plus_one (posts : list dict) (H : int_ids posts) :
  ∃ n, next_id posts = Ok n ∧
    (posts = [] → n = 1) ∧
    (posts ≠ [] → ∃ m, m ∈ ids posts ∧ Forall (λ x, x ≤ m) (ids posts) ∧ n = m + 1) ∧
    Forall (λ x, x < n) (ids posts) ∧
    ∀ new_post t c,
      supplied new_post "title" t → supplied new_post "content" c →
      ∃ stored, (handle_posts (POST (Some new_post)) posts).2 = posts ++ [stored] ∧
                stored !! "id" = Some (JInt n).
Proof.
  pose proof (next_id_int _ H) as Hn.
  eexists. split; [exact Hn|]. repeat split.
  - intros ->. reflexivity.
  - intros Hne. destruct posts as [|p l]; [congruence|]. simpl.
    exists (py_max (id_of p) (ids l)). split; [apply py_max_in|].
    destruct (py_max_ge (ids l) (id_of p)) as [H1 H2].
    split; [constructor; assumption | reflexivity].
  - apply next_id_fresh; assumption.
  - intros new_post t c Ht Hc.
    rewrite (create_valid _ _ _ Hn (supplied_truthy _ _ _ Ht) (supplied_truthy _ _ _ Hc)).
    eexists. split; [reflexivity|]. apply lookup_insert_eq.
Qed.

Lemma next_id_is_max_plus_one_witness :
  ∃ n, next_id POSTS = Ok n ∧
    (POSTS = [] → n = 1) ∧
    (POSTS ≠ [] → ∃ m, m ∈ ids POSTS ∧ Forall (λ x, x ≤ m) (ids POSTS) ∧ n = m + 1) ∧
    Forall (λ x, x < n) (ids POSTS) ∧
    ∀ new_post t c,
      supplied new_post "title" t → supplied new_post "content" c →
      ∃ stored, (handle_posts (POST (Some new_post)) POSTS).2 = POSTS ++ [stored] ∧
                stored !! "id" = Some (JInt n).
Proof. exact (next_id_is_max_plus_one POSTS seed_int_ids). Defined.

End Create.

Section CreateResponses.

(** C4 as stated fails: the response of a successful create is the fixed
    message object, not the record that was stored. *)
Lemma create_response_is_not_the_record :
  ∃ stored : dict,
    stored = <[ "id" := JInt 23 ]> {[ "title" := JStr "X"; "content" := JStr "Y" ]} ∧
    (handle_posts (POST (Some {[ "title" := JStr "X"; "content" := JStr "Y" ]})) POSTS).2
      = POSTS ++ [stored] ∧
    (handle_posts (POST (Some {[ "title" := JStr "X"; "content" := JStr "Y" ]})) POSTS).1
      ≠ Ok (PObj stored, 201).
Proof.
  assert (next_id POSTS = Ok 23) as Hn by (vm_compute; reflexivity).
  assert (handle_posts (POST (Some {[ "title" := JStr "X"; "content" := JStr "Y" ]})) POSTS =
            (Ok (message "Created", 201),
             POSTS ++ [<[ "id" := JInt 23 ]> {[ "title" := JStr "X"; "content" := JStr "Y" ]}]))
    as Hcreate by (apply create_valid; [exact Hn | vm_compute; reflexivity..]).
  eexists. split; [reflexivity|]. rewrite Hcreate.
  split; [reflexivity|].
  intros Heq.
  apply (f_equal (λ r : result response,
                    match r with Ok (PObj m, _) => m !! "id" | _ => None end)) in Heq.
  unfold message in Heq. cbn [fst] in Heq.
  rewrite lookup_insert_eq, lookup_singleton_ne in Heq by discriminate.
  discriminate Heq.
Qed.

(** C4, amended: a create with a non-empty title and content on a store
    with integer ids takes the id [next_id], appends the record (the body
    with that id) behind all existing records, which stay as they were, and
    answers 201 with the message [Created]. *)
Theorem create_appends_and_answers_created
    (posts : list dict) (new_post : dict) (t c : json)
    (H : int_ids posts)
    (Ht : supplied new_post "title" t) (Hc : supplied new_post "content" c) :
  ∃ n stored,
    next_id posts = Ok n ∧
    stored = <[ "id" := JInt n ]> new_post ∧
    stored !! "id" = Some (JInt n) ∧
    stored !! "title" = Some t ∧
    stored !! "content" = Some c ∧
    handle_posts (POST (Some new_post)) posts =
      (Ok (message "Created", 201), posts ++ [stored]).
Proof.
  pose proof (next_id_int _ H) as Hn.
  destruct Ht as [Ht Ht'], Hc as [Hc Hc'].
  eexists _, _. split; [exact Hn|]. split; [reflexivity|].
  split; [apply lookup_insert_eq|].
  split; [rewrite lookup_insert_ne; [exact Ht | discriminate]|].
  split; [rewrite lookup_insert_ne; [exact Hc | discriminate]|].
  apply create_valid; [exact Hn | |]; unfold get.
  - rewrite Ht. exact Ht'.
  - rewrite Hc. exact Hc'.
Qed.

Lemma create_appends_and_answers_created_witness :
  ∃ n stored,
    next_id POSTS = Ok n ∧
    stored = <[ "id" := JInt n ]> ({[ "title" := JStr "X"; "content" := JStr "Y" ]} : dict) ∧
    stored !! "id" = Some (JInt n) ∧
    stored !! "title" = Some (JStr "X") ∧
    stored !! "content" = Some (JStr "Y") ∧
    handle_posts (POST (Some {[ "title" := JStr "X"; "content" := JStr "Y" ]})) POSTS =
      (Ok (message "Created", 201), POSTS ++ [stored]).
Proof.
  apply (create_appends_and_answers_created POSTS
           {[ "title" := JStr "X"; "content" := JStr "Y" ]} (JStr "X") (JStr "Y")).
  - exact seed_int_ids.
  - split; vm_compute; reflexivity.
  - split; vm_compute; reflexivity.
Defined.

(** X13: on a store with integer ids, a create whose body is a JSON object
    and whose title is missing or empty answers 400 [Missing Title]
    whatever the content is; when the title is supplied and non-empty and
    the content is missing or empty it answers 400 [Missing Content]; the
    store is unchanged in both cases. *)
Theorem create_validation_order (posts : list dict) (new_post : dict)
    (H : int_ids posts) :
  (missing_or_empty new_post "title" →
     handle_posts (POST (Some new_post)) posts =
       (Ok (error "Missing Title", 400), posts)) ∧
  (∀ t, supplied new_post "title" t → missing_or_empty new_post "content" →
     handle_posts (POST (Some new_post)) posts =
       (Ok (error "Missing Content", 400), posts)).
Proof.
  pose proof (next_id_int _ H) as Hn. split.
  - intros Ht%missing_or_empty_falsy. simpl. rewrite Hn, Ht. reflexivity.
  - intros t Ht%supplied_truthy Hc%missing_or_empty_falsy.
    simpl. rewrite Hn, Ht, Hc. reflexivity.
Qed.

Lemma create_validation_order_witness :
  handle_posts (POST (Some {[ "content" := JStr "Y" ]})) POSTS =
    (Ok (error "Missing Title", 400), POSTS) ∧
  handle_posts (POST (Some {[ "title" := JStr "X"; "content" := JStr "" ]})) POSTS =
    (Ok (error "Missing Content", 400), POSTS).
Proof.
  split.
  - apply (proj1 (create_validation_order POSTS {[ "content" := JStr "Y" ]} seed_int_ids)).
    left. vm_compute. reflexivity.
  - apply (proj2 (create_validation_order POSTS
                    {[ "title" := JStr "X"; "content" := JStr "" ]} seed_int_ids)
             (JStr "X")).
    + split; vm_compute; reflexivity.
    + right. exists (JStr ""). split; vm_compute; reflexivity.
Defined.

End CreateResponses.

(** ** Deleting a post *)

Section Delete.

Lemma ids_app (l1 l2 : list dict) : ids (l1 ++ l2) = ids l1 ++ ids l2.
Proof. apply List.map_app. Qed.

Lemma int_ids_app (l1 l2 : list dict) :
  int_ids (l1 ++ l2) ↔ int_ids l1 ∧ int_ids l2.
Proof. apply Forall_app. Qed.

(** Two posts that compare equal carry the same integer id. *)
Lemma dict_eq_same_id (a b : dict) (m n : Z) :
  dict_eq a b = true → post_id a = Some m → post_id b = Some n → m = n.
Proof.
  unfold dict_eq. intros [_ Hall]%andb_true_iff Ha%post_id_lookup Hb%post_id_lookup.
  rewrite forallb_forall in Hall.
  specialize (Hall ("id", JInt m)). simpl in Hall. rewrite Hb in Hall.
  simpl in Hall. apply Z.eqb_eq, Hall.
  apply list_elem_of_In, elem_of_map_to_list, Ha.
Qed.

Lemma find_post_split (id : Z) (posts : list dict) :
  int_ids posts →
  ∀ k : nat,
    ((id ∉ ids posts) ∧ find_post id k posts = Ok None) ∨
    (∃ l1 p l2, posts = l1 ++ p :: l2 ∧ (id ∉ ids l1) ∧ post_id p = Some id ∧
                find_post id k posts = Ok (Some ((k + List.length l1)%nat, p))).
Proof.
  induction 1 as [|p l Hp Hl IH]; intros k.
  - left. split; [apply not_elem_of_nil | reflexivity].
  - destruct Hp as [n Hn]. simpl.
    rewrite (as_int_post_id _ _ Hn). simpl.
    destruct (Z.eqb_spec id n) as [<- | Hne].
    + right. exists [], p, l. simpl. rewrite Nat.add_0_r.
      repeat split; [apply not_elem_of_nil | exact Hn].
    + assert (id_of p = n) as Hid by (unfold id_of; rewrite Hn; reflexivity).
      destruct (IH (S k)) as [[Hnot Hf] | (l1 & q & l2 & -> & Hnot & Hq & Hf)].
      * left. split; [|exact Hf]. rewrite not_elem_of_cons, Hid. split; assumption.
      * right. exists (p :: l1), q, l2. simpl.
        rewrite Nat.add_succ_r. repeat split; try assumption.
        rewrite not_elem_of_cons, Hid. split; assumption.
Qed.

Lemma list_remove_split (id : Z) (p : dict) (l1 l2 : list dict) :
  int_ids l1 → id ∉ ids l1 → post_id p = Some id →
  ∀ k : nat, list_remove (k + List.length l1) p k (l1 ++ p :: l2) = Ok (l1 ++ l2).
Proof.
  intros H. induction H as [|q l Hq Hl IH]; intros Hnot Hp k; simpl.
  - rewrite Nat.add_0_r, Nat.eqb_refl. reflexivity.
  - apply id_of_post_id in Hq.
    apply not_elem_of_cons in Hnot as [Hne Hnot].
    replace (Nat.eqb k (k + S (List.length l))) with false
      by (symmetry; apply Nat.eqb_neq; lia).
    destruct (dict_eq q p) eqn:Heq.
    + exfalso. apply Hne. symmetry. exact (dict_eq_same_id _ _ _ _ Heq Hq Hp).
    + simpl. rewrite <- Nat.add_succ_comm, (IH Hnot Hp (S k)). reflexivity.
Qed.

Lemma delete_absent (id : Z) (posts : list dict) :
  int_ids posts → id ∉ ids posts →
  delete id posts =
    (Ok (error ("Post with id " +:+ pretty id +:+ " was not found."), 404), posts).
Proof.
  intros H Hnot. unfold delete.
  destruct (find_post_split id posts H 0) as [[_ ->] | (l1 & p & l2 & -> & _ & Hp & _)].
  - reflexivity.
  - exfalso. apply Hnot. rewrite ids_app. apply elem_of_app. right.
    simpl. unfold id_of at 1. rewrite Hp. left.
Qed.

Lemma delete_present (id : Z) (p : dict) (l1 l2 : list dict) :
  int_ids (l1 ++ p :: l2) → id ∉ ids l1 → post_id p = Some id →
  delete id (l1 ++ p :: l2) =
    (Ok (message ("Post with id " +:+ pretty id +:+ " has been deleted successfully."), 200),
     l1 ++ l2).
Proof.
  intros H Hnot Hp. unfold delete.
  destruct (find_post_split id _ H 0)
    as [[Habs _] | (l1' & p' & l2' & Heq & Hnot' & Hp' & ->)].
  { exfalso. apply Habs. rewrite ids_app. apply elem_of_app. right.
    simpl. unfold id_of at 1. rewrite Hp. left. }
  assert (l1' = l1 ∧ p' = p ∧ l2' = l2) as (-> & -> & ->).
  { clear H. revert l1' Heq Hnot'. induction l1 as [|q l1 IH]; intros [|q' l1'] Heq Hnot'.
    - injection Heq as <- <-. done.
    - exfalso. injection Heq as <- ->. apply Hnot'. simpl.
      unfold id_of at 1. rewrite Hp. left.
    - exfalso. injection Heq as -> <-. apply Hnot. simpl.
      unfold id_of at 1. rewrite Hp'. left.
    - injection Heq as <- Heq.
      apply not_elem_of_cons in Hnot as [_ Hnot].
      apply not_elem_of_cons in Hnot' as [_ Hnot'].
      destruct (IH Hnot l1' Heq Hnot') as (-> & -> & ->). done. }
  apply int_ids_app in H as [H1 _].
  rewrite (list_remove_split id p l1 l2 H1 Hnot Hp 0). reflexivity.
Qed.

Lemma present_split (id : Z) (posts : list dict) :
  int_ids posts → id ∈ ids posts →
  ∃ l1 p l2, posts = l1 ++ p :: l2 ∧ (id ∉ ids l1) ∧ post_id p = Some id.
Proof.
  intros H Hin.
  destruct (find_post_split id posts H 0) as [[Habs _] | (l1 & p & l2 & ? & ? & ? & _)].
  - contradiction.
  - eauto 6.
Qed.

End Delete.

Section DeleteProperties.

Lemma seed_ids_distinct : NoDup (ids POSTS).
Proof. apply (bool_decide_unpack (NoDup (ids POSTS))). vm_compute. exact I. Qed.

(** C6: on a store with distinct integer ids, deleting an id that some
    record carries removes that record and nothing else (the records before
    and after it stay, in order, so the size drops by one), and answers 200
    with a message that spells out the id; deleting an id that no record
    carries answers 404 and leaves the store unchanged.  Hence a second
    delete of the same id answers 404. *)
Theorem delete_removes_exactly_one (id : Z) (posts : list dict)
    (H : int_ids posts) (Hnd : NoDup (ids posts)) :
  (id ∈ ids posts →
     ∃ l1 p l2,
       posts = l1 ++ p :: l2 ∧ p !! "id" = Some (JInt id) ∧
       (id ∉ ids (l1 ++ l2)) ∧
       delete id posts =
         (Ok (message ("Post with id " +:+ pretty id +:+ " has been deleted successfully."),
              200),
          l1 ++ l2) ∧
       (List.length (l1 ++ l2) + 1)%nat = List.length posts ∧
       delete id (delete id posts).2 =
         (Ok (error ("Post with id " +:+ pretty id +:+ " was not found."), 404), l1 ++ l2)) ∧
  ((id ∉ ids posts) →
     delete id posts =
       (Ok (error ("Post with id " +:+ pretty id +:+ " was not found."), 404), posts)).
Proof.
  split; [|apply delete_absent; exact H].
  intros Hin.
  destruct (present_split id posts H Hin) as (l1 & p & l2 & -> & Hnot & Hp).
  assert (id ∉ ids (l1 ++ l2)) as Hgone.
  { rewrite ids_app in Hnd |- *. simpl in Hnd.
    apply NoDup_app in Hnd as (_ & _ & Hnd2).
    apply NoDup_cons in Hnd2 as [Hnd2 _].
    unfold id_of at 1 in Hnd2. rewrite Hp in Hnd2. simpl in Hnd2.
    rewrite elem_of_app. tauto. }
  assert (int_ids (l1 ++ l2)) as H'.
  { apply int_ids_app in H as [H1 H2]. apply Forall_cons in H2 as [_ H2].
    apply int_ids_app. split; assumption. }
  exists l1, p, l2.
  rewrite (delete_present id p l1 l2 H Hnot Hp). simpl.
  repeat split; try assumption.
  - apply post_id_lookup, Hp.
  - rewrite !length_app. simpl. lia.
  - apply delete_absent; assumption.
Qed.

Lemma delete_removes_exactly_one_witness :
  (22 ∈ ids POSTS →
     ∃ l1 p l2,
       POSTS = l1 ++ p :: l2 ∧ p !! "id" = Some (JInt 22) ∧
       (22 ∉ ids (l1 ++ l2)) ∧
       delete 22 POSTS =
         (Ok (message ("Post with id " +:+ pretty 22 +:+ " has been deleted successfully."),
              200),
          l1 ++ l2) ∧
       (List.length (l1 ++ l2) + 1)%nat = List.length POSTS ∧
       delete 22 (delete 22 POSTS).2 =
         (Ok (error ("Post with id " +:+ pretty 22 +:+ " was not found."), 404), l1 ++ l2)) ∧
  ((22 ∉ ids POSTS) →
     delete 22 POSTS =
       (Ok (error ("Post with id " +:+ pretty 22 +:+ " was not found."), 404), POSTS)).
Proof. exact (delete_removes_exactly_one 22 POSTS seed_int_ids seed_ids_distinct). Defined.

(** The invariant of the store: integer ids, pairwise distinct. *)
Lemma run_op_keeps_ids_distinct (posts : list dict) (o : op) :
  int_ids posts ∧ NoDup (ids posts) →
  int_ids (run_op posts o) ∧ NoDup (ids (run_op posts o)).
Proof.
  intros [H Hnd]. destruct o as [body | id]; simpl.
  - pose proof (next_id_int _ H) as Hn. rewrite Hn.
    destruct body as [new_post|]; [|split; assumption].
    destruct (truthy (get new_post "title")); simpl; [|split; assumption].
    destruct (truthy (get new_post "content")); simpl; [|split; assumption].
    pose proof (next_id_fresh _ _ H Hn) as Hfresh.
    set (n := match ids posts with [] => 1 | m :: ms => py_max m ms + 1 end) in *.
    assert (post_id (<[ "id" := JInt n ]> new_post) = Some n) as Hid
      by (apply post_id_lookup, lookup_insert_eq).
    split.
    + apply int_ids_app. split; [exact H|].
      constructor; [rewrite Hid; eauto | constructor].
    + rewrite ids_app.
      replace (ids [<[ "id" := JInt n ]> new_post]) with [n]
        by (simpl; unfold id_of; rewrite Hid; reflexivity).
      apply NoDup_app. split; [exact Hnd|]. split; [|apply NoDup_singleton].
      intros x Hx ->%list_elem_of_singleton.
      rewrite Forall_forall in Hfresh. specialize (Hfresh _ Hx). lia.
  - destruct (decide (id ∈ ids posts)) as [Hin | Hnot].
    + destruct (present_split id posts H Hin) as (l1 & p & l2 & -> & Hnot & Hp).
      rewrite (delete_present id p l1 l2 H Hnot Hp). simpl.
      rewrite ids_app in Hnd |- *. simpl in Hnd.
      apply int_ids_app in H as [H1 H2]. apply Forall_cons in H2 as [_ H2].
      split; [apply int_ids_app; split; assumption|].
      apply NoDup_app in Hnd as (Hnd1 & Hdisj & Hnd2).
      apply NoDup_cons in Hnd2 as [_ Hnd2].
      apply NoDup_app. repeat split; try assumption.
      intros x Hx Hx2. apply (Hdisj x Hx). right. exact Hx2.
    + rewrite (delete_absent id posts H Hnot). split; assumption.
Qed.

End DeleteProperties.

Section Invariant.

Lemma run_keeps_ids_distinct (ops : list op) :
  ∀ posts, int_ids posts ∧ NoDup (ids posts) →
           int_ids (run ops posts) ∧ NoDup (ids (run ops posts)).
Proof.
  induction ops as [|o ops IH]; intros posts Hinv; simpl.
  - exact Hinv.
  - apply IH, run_op_keeps_ids_distinct, Hinv.
Qed.

(** C2: whatever creates and deletes are run from the seed, after each of
    them every record of the store carries an integer id and these ids are
    pairwise distinct. *)
Theorem ids_stay_distinct (ops : list op) (n : nat) :
  int_ids (run (take n ops) POSTS) ∧ NoDup (ids (run (take n ops) POSTS)).
Proof.
  apply run_keeps_ids_distinct. split; [exact seed_int_ids | exact seed_ids_distinct].
Qed.

End Invariant.

(** ** Updating a post *)

Section Update.

Lemma apply_details_other (new_details post : dict) (k : string) :
  k ≠ "title" → k ≠ "content" → apply_details new_details post !! k = post !! k.
Proof.
  intros Ht Hc. unfold apply_details.
  destruct (truthy (get new_details "title")), (truthy (get new_details "content"));
    rewrite ?lookup_insert_ne by congruence; reflexivity.
Qed.

Lemma apply_details_title (new_details post : dict) :
  apply_details new_details post !! "title" =
    if truthy (get new_details "title") then new_details !! "title" else post !! "title".
Proof.
  unfold apply_details, get.
  destruct (new_details !! "title") as [v|] eqn:Ht; simpl;
    destruct (new_details !! "content") as [w|] eqn:Hc; simpl;
    repeat match goal with |- context [truthy ?x] => destruct (truthy x) end;
    rewrite ?lookup_insert_eq, ?(lookup_insert_ne _ "content" "title") by discriminate;
    rewrite ?lookup_insert_eq; reflexivity.
Qed.

Lemma apply_details_content (new_details post : dict) :
  apply_details new_details post !! "content" =
    if truthy (get new_details "content") then new_details !! "content" else post !! "content".
Proof.
  unfold apply_details, get.
  destruct (new_details !! "title") as [v|] eqn:Ht; simpl;
    destruct (new_details !! "content") as [w|] eqn:Hc; simpl;
    repeat match goal with |- context [truthy ?x] => destruct (truthy x) end;
    rewrite ?lookup_insert_eq, ?(lookup_insert_ne _ "title" "content") by discriminate;
    reflexivity.
Qed.

Lemma update_loop_absent (id : Z) (nd : dict) (posts : list dict) :
  int_ids posts → id ∉ ids posts → update_loop id nd posts = Ok (None, posts).
Proof.
  induction 1 as [|p l Hp Hl IH]; intros Hnot; simpl; [reflexivity|].
  apply id_of_post_id in Hp.
  apply not_elem_of_cons in Hnot as [Hne Hnot].
  rewrite (as_int_post_id _ _ Hp). simpl.
  destruct (Z.eqb_spec (id_of p) id) as [Heq | _]; [congruence|].
  rewrite (IH Hnot). reflexivity.
Qed.

Lemma update_loop_present (id : Z) (nd p : dict) (l1 l2 : list dict) :
  int_ids l1 → id ∉ ids l1 → post_id p = Some id →
  update_loop id nd (l1 ++ p :: l2) =
    Ok (Some (apply_details nd p), l1 ++ apply_details nd p :: l2).
Proof.
  intros H. induction H as [|q l Hq Hl IH]; intros Hnot Hp; simpl.
  - rewrite (as_int_post_id _ _ Hp). simpl. rewrite Z.eqb_refl. reflexivity.
  - apply id_of_post_id in Hq.
    apply not_elem_of_cons in Hnot as [Hne Hnot].
    rewrite (as_int_post_id _ _ Hq). simpl.
    destruct (Z.eqb_spec (id_of q) id) as [Heq | _]; [congruence|].
    rewrite (IH Hnot Hp). reflexivity.
Qed.

Lemma falsy_body_nonempty (nd : dict) : nd ≠ ∅ → falsy_body (Some nd) = false.
Proof.
  intros Hne. simpl. apply Nat.eqb_neq. intros Hsz.
  apply Hne, map_size_empty_iff, Hsz.
Qed.

End Update.

Section UpdateProperties.

(** C5 as stated fails on the empty object: the body is present and
    parses, no record has id 999, and the answer is 400, not 404. *)
Lemma update_rejects_empty_object :
  (999 ∉ ids POSTS) ∧
  update 999 (Some ∅) POSTS = (Ok (error "Invalid or missing JSON data.", 400), POSTS) ∧
  status (update 999 (Some ∅) POSTS) ≠ Some 404.
Proof.
  split; [|split].
  - apply (bool_decide_unpack (999 ∉ ids POSTS)). vm_compute. exact I.
  - reflexivity.
  - vm_compute. discriminate.
Qed.

(** C5, amended: for an update whose body is a non-empty object, on a
    store with integer ids: when no record has the id the answer is 404 and
    the store is unchanged; otherwise the first record with the id is
    replaced in place by a record in which a title supplied non-empty is
    the new title, a content supplied non-empty is the new content, a field
    that is missing or supplied empty keeps its stored value and the id is
    the old id, and that record is the answer, with 200. *)
Theorem update_overwrites_supplied_fields (id : Z) (new_details : dict)
    (posts : list dict) (H : int_ids posts) (Hne : new_details ≠ ∅) :
  ((id ∉ ids posts) →
     update id (Some new_details) posts =
       (Ok (error ("No post found with id " +:+ pretty id +:+ "."), 404), posts)) ∧
  (id ∈ ids posts →
     ∃ l1 p l2 p',
       posts = l1 ++ p :: l2 ∧ (id ∉ ids l1) ∧ p !! "id" = Some (JInt id) ∧
       update id (Some new_details) posts = (Ok (PObj p', 200), l1 ++ p' :: l2) ∧
       p' !! "id" = Some (JInt id) ∧
       ∀ k, k = "title" ∨ k = "content" →
            (∀ v, supplied new_details k v → p' !! k = Some v) ∧
            (missing_or_empty new_details k → p' !! k = p !! k)).
Proof.
  pose proof (falsy_body_nonempty _ Hne) as Hbody. split.
  - intros Hnot. unfold update. rewrite Hbody. simpl.
    rewrite (update_loop_absent _ _ _ H Hnot). reflexivity.
  - intros Hin.
    destruct (present_split id posts H Hin) as (l1 & p & l2 & -> & Hnot & Hp).
    apply int_ids_app in H as [H1 _].
    exists l1, p, l2, (apply_details new_details p).
    unfold update. rewrite Hbody. simpl.
    rewrite (update_loop_present _ _ _ _ _ H1 Hnot Hp).
    apply post_id_lookup in Hp.
    split; [reflexivity|]. split; [exact Hnot|]. split; [exact Hp|].
    split; [reflexivity|].
    split; [rewrite apply_details_other by discriminate; exact Hp|].
    intros k Hk. split.
    + intros v Hv. pose proof (supplied_truthy _ _ _ Hv) as Htr.
      destruct Hv as [Hv _].
      destruct Hk as [-> | ->].
      * rewrite apply_details_title, Htr. exact Hv.
      * rewrite apply_details_content, Htr. exact Hv.
    + intros Hv%missing_or_empty_falsy.
      destruct Hk as [-> | ->].
      * rewrite apply_details_title, Hv. reflexivity.
      * rewrite apply_details_content, Hv. reflexivity.
Qed.

Lemma update_overwrites_supplied_fields_witness :
  ((22 ∉ ids POSTS) →
     update 22 (Some {[ "title" := JStr "Z" ]}) POSTS =
       (Ok (error ("No post found with id " +:+ pretty 22 +:+ "."), 404), POSTS)) ∧
  (22 ∈ ids POSTS →
     ∃ l1 p l2 p',
       POSTS = l1 ++ p :: l2 ∧ (22 ∉ ids l1) ∧ p !! "id" = Some (JInt 22) ∧
       update 22 (Some {[ "title" := JStr "Z" ]}) POSTS = (Ok (PObj p', 200), l1 ++ p' :: l2) ∧
       p' !! "id" = Some (JInt 22) ∧
       ∀ k, k = "title" ∨ k = "content" →
            (∀ v, supplied ({[ "title" := JStr "Z" ]} : dict) k v → p' !! k = Some v) ∧
            (missing_or_empty ({[ "title" := JStr "Z" ]} : dict) k → p' !! k = p !! k)).
Proof.
  apply (update_overwrites_supplied_fields 22 {[ "title" := JStr "Z" ]} POSTS seed_int_ids).
  intros Heq. apply (f_equal (λ m : dict, m !! "title")) in Heq.
  vm_compute in Heq. discriminate Heq.
Defined.

(** C10: an update of an id that some record carries, whatever its body,
    leaves every record in its place and changes at most the first record
    with that id, and there at most the fields title and content: every
    other key has the value, or the absence, it had before. *)
Theorem update_changes_only_title_and_content (id : Z) (body : option dict)
    (posts : list dict) (H : int_ids posts) (Hin : id ∈ ids posts) :
  ∃ l1 p l2 p',
    posts = l1 ++ p :: l2 ∧ (id ∉ ids l1) ∧ p !! "id" = Some (JInt id) ∧
    (update id body posts).2 = l1 ++ p' :: l2 ∧
    ∀ k, k ≠ "title" → k ≠ "content" → p' !! k = p !! k.
Proof.
  destruct (present_split id posts H Hin) as (l1 & p & l2 & -> & Hnot & Hp).
  apply int_ids_app in H as [H1 _].
  pose proof Hp as Hlk%post_id_lookup.
  unfold update. destruct (falsy_body body); [exists l1, p, l2, p; done|].
  rewrite (update_loop_present _ _ _ _ _ H1 Hnot Hp).
  exists l1, p, l2, (apply_details (default ∅ body) p).
  repeat split; try assumption.
  intros k Ht Hc. apply apply_details_other; assumption.
Qed.

Lemma update_changes_only_title_and_content_witness :
  ∃ l1 p l2 p',
    POSTS = l1 ++ p :: l2 ∧ (3 ∉ ids l1) ∧ p !! "id" = Some (JInt 3) ∧
    (update 3 (Some {[ "title" := JStr "Z"; "id" := JInt 7; "tag" := JStr "x" ]}) POSTS).2
      = l1 ++ p' :: l2 ∧
    ∀ k, k ≠ "title" → k ≠ "content" → p' !! k = p !! k.
Proof.
  apply (update_changes_only_title_and_content 3
           (Some {[ "title" := JStr "Z"; "id" := JInt 7; "tag" := JStr "x" ]})
           POSTS seed_int_ids).
  apply (bool_decide_unpack (3 ∈ ids POSTS)). vm_compute. exact I.
Defined.

End UpdateProperties.

(** ** Listing the posts *)

Section ListValidation.

(** C8 as stated fails on the empty sort field: it is present, it is
    neither [title] nor [content], and the call answers 200 with the
    unsorted collection. *)
Lemma list_accepts_empty_sort_field :
  ({[ "sort" := "" ]} : gmap string string) !! "sort" = Some "" ∧
  "" ≠ "title" ∧ "" ≠ "content" ∧
  handle_posts (GET {[ "sort" := "" ]}) POSTS = (Ok (PList POSTS, 200), POSTS) ∧
  status (handle_posts (GET {[ "sort" := "" ]}) POSTS) ≠ Some 400.
Proof.
  split; [reflexivity|]. split; [discriminate|]. split; [discriminate|].
  split; [reflexivity|]. vm_compute. discriminate.
Qed.

(** C8, amended: a list call whose sort field is present, not empty and
    neither [title] nor [content] answers 400 [Invalid sort field]; a call
    that passes this check and whose direction, defaulted to [asc] and
    lower-cased, is neither [asc] nor [desc] answers 400 [Invalid sort
    direction]; a call whose sort field is absent or empty and whose
    direction is valid answers 200 with the collection in insertion order.
    The store is never changed. *)
Theorem list_validation (args : gmap string string) (posts : list dict) :
  let direction := lower (default "asc" (args !! "direction")) in
  (∀ f, args !! "sort" = Some f → f ≠ "" → f ≠ "title" → f ≠ "content" →
     handle_posts (GET args) posts =
       (Ok (error "Invalid sort field. Allowed values are 'title' or 'content'.", 400),
        posts)) ∧
  (args !! "sort" = None ∨ args !! "sort" = Some "" ∨
   args !! "sort" = Some "title" ∨ args !! "sort" = Some "content" →
   direction ≠ "asc" → direction ≠ "desc" →
     handle_posts (GET args) posts =
       (Ok (error "Invalid sort direction. Allowed values are 'asc' or 'desc'.", 400),
        posts)) ∧
  (args !! "sort" = None ∨ args !! "sort" = Some "" →
   direction = "asc" ∨ direction = "desc" →
     handle_posts (GET args) posts = (Ok (PList posts, 200), posts)).
Proof.
  intros direction. unfold handle_posts. fold direction.
  split; [|split].
  - intros f -> H0 H1 H2.
    apply String.eqb_neq in H0, H1, H2. simpl. rewrite H0, H1, H2. reflexivity.
  - intros Hf Ha Hd. apply String.eqb_neq in Ha, Hd.
    destruct Hf as [-> | [-> | [-> | ->]]]; simpl; rewrite Ha, Hd; reflexivity.
  - intros Hf Hd.
    assert (str_in direction ["asc"; "desc"] = true) as Hok
      by (destruct Hd as [-> | ->]; reflexivity).
    destruct Hf as [-> | ->]; simpl str_truthy; cbn [andb negb]; rewrite Hok; reflexivity.
Qed.

Lemma list_validation_witness :
  handle_posts (GET {[ "sort" := "bogus" ]}) POSTS =
    (Ok (error "Invalid sort field. Allowed values are 'title' or 'content'.", 400), POSTS).
Proof.
  apply (proj1 (list_validation {[ "sort" := "bogus" ]} POSTS) "bogus");
    [reflexivity | discriminate..].
Defined.

End ListValidation.

(** ** Searching the posts *)

Section Search.

Lemma append_cons (a : ascii) (s t : string) :
  String a s +:+ t = String a (s +:+ t).
Proof. reflexivity. Qed.

Lemma prefix_occurs (needle hay : string) :
  String.prefix needle hay = true ↔ ∃ suf, hay = needle +:+ suf.
Proof.
  revert hay. induction needle as [|a needle IH]; intros hay.
  - destruct hay; simpl; (split; [intros _; eexists; reflexivity | reflexivity]).
  - destruct hay as [|b hay]; simpl.
    + split; [discriminate | intros [suf Hsuf]; discriminate].
    + destruct (ascii_dec a b) as [<- | Hne].
      * rewrite IH. split; intros [suf Hsuf]; exists suf.
        -- rewrite append_cons. congruence.
        -- rewrite append_cons in Hsuf. congruence.
      * split; [discriminate|].
        intros [suf Hsuf]. rewrite append_cons in Hsuf. congruence.
Qed.

Lemma contains_cons (needle : string) (b : ascii) (hay : string) :
  contains needle (String b hay) =
    String.prefix needle (String b hay) || contains needle hay.
Proof. reflexivity. Qed.

Lemma contains_occurs (needle hay : string) :
  contains needle hay = true ↔ occurs_in needle hay.
Proof.
  unfold occurs_in. induction hay as [|b hay IH].
  - change (contains needle "") with (String.prefix needle "" || false).
    rewrite orb_false_r, prefix_occurs. split.
    + intros [suf Hsuf]. exists "", suf. exact Hsuf.
    + intros (pre & suf & Heq). destruct pre as [|c pre].
      * exists suf. exact Heq.
      * rewrite append_cons in Heq. discriminate Heq.
  - rewrite contains_cons, orb_true_iff, IH, prefix_occurs. split.
    + intros [[suf Hsuf] | (pre & suf & ->)].
      * exists "", suf. exact Hsuf.
      * exists (String b pre), suf. reflexivity.
    + intros (pre & suf & Heq). destruct pre as [|c pre].
      * left. exists suf. exact Heq.
      * right. rewrite append_cons in Heq. injection Heq as _ ->.
        exists pre, suf. reflexivity.
Qed.

Lemma lower_eqb_empty (s : string) : String.eqb (lower s) "" = String.eqb s "".
Proof. destruct s; reflexivity. Qed.

Lemma field_matches_text (query field : string) (p : dict) (s : string) :
  p !! field = Some (JStr s) →
  field_matches query field p =
    Ok (negb (String.eqb query "") && contains query (key_of field p)).
Proof.
  intros Hs. unfold field_matches, key_of, getitem. rewrite Hs. simpl.
  destruct (String.eqb query ""); reflexivity.
Qed.

Lemma field_matches_empty (field : string) (p : dict) :
  field_matches "" field p = Ok false.
Proof. reflexivity. Qed.

Lemma search_loop_text (tq cq : string) (posts : list dict) :
  Forall text_post posts →
  ∀ acc,
    search_loop (lower tq) (lower cq) posts acc =
      Ok (acc ++ List.filter (spec_matchb tq cq) posts).
Proof.
  induction 1 as [|p l (t & c & Ht & Hc) _ IH]; intros acc; simpl.
  - rewrite app_nil_r. reflexivity.
  - rewrite (field_matches_text _ _ _ _ Ht), (field_matches_text _ _ _ _ Hc). simpl.
    rewrite IH. unfold spec_matchb at 2. rewrite !lower_eqb_empty.
    destruct (_ || _); [rewrite <- app_assoc|]; reflexivity.
Qed.

Lemma search_loop_no_query (posts : list dict) :
  ∀ acc, search_loop "" "" posts acc = Ok acc.
Proof. induction posts as [|p l IH]; intros acc; simpl; [reflexivity | apply IH]. Qed.

Lemma spec_matchb_matches (tq cq : string) (p : dict) :
  text_post p → spec_matchb tq cq p = true ↔ spec_matches tq cq p.
Proof.
  intros (t & c & Ht & Hc). unfold spec_matchb, spec_matches, key_of.
  rewrite Ht, Hc, orb_true_iff, !andb_true_iff, !negb_true_iff, !String.eqb_neq.
  rewrite !contains_occurs. split.
  - intros [[Hq Ho] | [Hq Ho]]; [left | right]; (split; [exact Hq | eauto]).
  - intros [[Hq (t' & [= <-] & Ho)] | [Hq (c' & [= <-] & Ho)]]; [left | right]; done.
Qed.

Lemma seed_text_posts : Forall text_post POSTS.
Proof.
  unfold POSTS.
  repeat (constructor; [eexists _, _; split; vm_compute; reflexivity|]).
  constructor.
Qed.

End Search.

Section SearchProperties.

(** X14: on a store whose records have a text title and a text content,
    search, with absent queries read as empty, answers 200 with the
    collection filtered, in its own order, by the rule "the title contains
    the non-empty title query or the content contains the non-empty content
    query", both case-insensitively, and leaves the store unchanged; with
    both queries empty the answer is the empty list whatever the store
    holds, text or not. *)
Theorem search_returns_union_of_matches (args : gmap string string) (posts : list dict) :
  let title_query := default "" (args !! "title") in
  let content_query := default "" (args !! "content") in
  (Forall text_post posts →
     search args posts =
       (Ok (PList (List.filter (spec_matchb title_query content_query) posts), 200), posts)) ∧
  (∀ p, text_post p →
     spec_matchb title_query content_query p = true ↔
     spec_matches title_query content_query p) ∧
  (title_query = "" → content_query = "" →
     search args posts = (Ok (PList [], 200), posts)).
Proof.
  intros tq cq. split; [|split].
  - intros Htext. unfold search. fold tq cq.
    rewrite (search_loop_text tq cq posts Htext []). reflexivity.
  - intros p Hp. apply spec_matchb_matches, Hp.
  - intros Ht Hc. unfold search. fold tq cq. rewrite Ht, Hc. simpl.
    rewrite search_loop_no_query. reflexivity.
Qed.

Lemma search_returns_union_of_matches_witness :
  Forall text_post POSTS ∧
  search {[ "title" := "Python" ]} POSTS =
    (Ok (PList (List.filter
                  (spec_matchb
                     (default "" (({[ "title" := "Python" ]} : gmap string string) !! "title"))
                     (default "" (({[ "title" := "Python" ]} : gmap string string) !! "content")))
                  POSTS), 200), POSTS).
Proof.
  split; [exact seed_text_posts|].
  apply (proj1 (search_returns_union_of_matches {[ "title" := "Python" ]} POSTS)).
  exact seed_text_posts.
Defined.

End SearchProperties.

(** ** Sorting *)

Section StringOrder.

Lemma string_compare_refl (s : string) : String.compare s s = Eq.
Proof.
  induction s as [|c s IH]; simpl; [reflexivity|].
  unfold Ascii.compare. rewrite N.compare_refl. exact IH.
Qed.

Lemma ascii_compare_lt_trans (x y z : ascii) :
  Ascii.compare x y = Lt → Ascii.compare y z = Lt → Ascii.compare x z = Lt.
Proof.
  unfold Ascii.compare. rewrite !N.compare_lt_iff. apply N.lt_trans.
Qed.

Lemma string_compare_lt_trans (a : string) :
  ∀ b c, String.compare a b = Lt → String.compare b c = Lt → String.compare a c = Lt.
Proof.
  induction a as [|x a IH]; intros [|y b] [|z c]; simpl; try congruence.
  destruct (Ascii.compare x y) eqn:Hxy; try discriminate;
    destruct (Ascii.compare y z) eqn:Hyz; try discriminate.
  - apply Ascii.compare_eq_iff in Hxy as ->. rewrite Hyz. apply IH.
  - apply Ascii.compare_eq_iff in Hxy as ->. rewrite Hyz. reflexivity.
  - apply Ascii.compare_eq_iff in Hyz as <-. rewrite Hxy. reflexivity.
  - rewrite (ascii_compare_lt_trans _ _ _ Hxy Hyz). reflexivity.
Qed.

Lemma ltb_irrefl (s : string) : String.ltb s s = false.
Proof. unfold String.ltb. rewrite string_compare_refl. reflexivity. Qed.

Lemma ltb_trans (a b c : string) :
  String.ltb a b = true → String.ltb b c = true → String.ltb a c = true.
Proof.
  unfold String.ltb. intros Hab Hbc.
  destruct (String.compare a b) eqn:H1; try discriminate.
  destruct (String.compare b c) eqn:H2; try discriminate.
  rewrite (string_compare_lt_trans _ _ _ H1 H2). reflexivity.
Qed.

Lemma ltb_trichotomy (a b : string) :
  String.ltb a b = false → String.ltb b a = false → a = b.
Proof.
  unfold String.ltb. rewrite (String.compare_antisym b a).
  destruct (String.compare a b) eqn:H; simpl; try discriminate.
  intros _ _. apply String.compare_eq_iff, H.
Qed.

Lemma ltb_asym (a b : string) : String.ltb a b = true → String.ltb b a = false.
Proof.
  intros Hab. destruct (String.ltb b a) eqn:Hba; [|reflexivity].
  rewrite <- (ltb_irrefl a). symmetry. exact (ltb_trans _ _ _ Hab Hba).
Qed.

(** [a <= b] and [b <= c] give [a <= c], with [x <= y] read as [not (y < x)]. *)
Lemma not_ltb_trans (a b c : string) :
  String.ltb b a = false → String.ltb c b = false → String.ltb c a = false.
Proof.
  intros Hab Hbc. destruct (String.ltb c a) eqn:Hca; [|reflexivity].
  destruct (String.ltb a b) eqn:Hlt.
  - rewrite <- Hbc. symmetry. exact (ltb_trans _ _ _ Hca Hlt).
  - rewrite <- (ltb_trichotomy _ _ Hlt Hab) in Hbc. congruence.
Qed.

End StringOrder.

Section SortFacts.
Context {A : Type}.
Implicit Types (x y : string * A) (l : list (string * A)).

Lemma insert_sorted_perm x l : insert_sorted x l ≡ₚ x :: l.
Proof.
  induction l as [|y l IH]; simpl; [reflexivity|].
  destruct (String.ltb y.1 x.1); [|reflexivity].
  rewrite IH. apply perm_swap.
Qed.

Lemma sort_asc_perm l : sort_asc l ≡ₚ l.
Proof.
  induction l as [|x l IH]; simpl; [reflexivity|].
  rewrite insert_sorted_perm, IH. reflexivity.
Qed.

(** Stability: an insertion only walks past strictly smaller keys. *)
Lemma insert_sorted_filter (k : string) x l :
  List.filter (λ y, String.eqb y.1 k) (insert_sorted x l) =
  List.filter (λ y, String.eqb y.1 k) (x :: l).
Proof.
  induction l as [|y l IH]; [reflexivity|].
  cbn [insert_sorted]. destruct (String.ltb y.1 x.1) eqn:Hlt; [|reflexivity].
  cbn [List.filter] in *. rewrite IH.
  destruct (String.eqb_spec x.1 k) as [Hx | _]; [|reflexivity].
  destruct (String.eqb_spec y.1 k) as [Hy | _]; [|reflexivity].
  rewrite Hx, Hy, ltb_irrefl in Hlt. discriminate Hlt.
Qed.

Lemma sort_asc_stable (k : string) l :
  List.filter (λ y, String.eqb y.1 k) (sort_asc l) =
  List.filter (λ y, String.eqb y.1 k) l.
Proof.
  induction l as [|x l IH]; [reflexivity|].
  cbn [sort_asc]. rewrite insert_sorted_filter. cbn [List.filter].
  rewrite IH. reflexivity.
Qed.

Lemma insert_sorted_sorted x l :
  StronglySorted key_le l → StronglySorted key_le (insert_sorted x l).
Proof.
  induction l as [|y l IH]; intros Hl; cbn [insert_sorted].
  - repeat constructor.
  - apply StronglySorted_cons in Hl as [Hy Hl].
    destruct (String.ltb y.1 x.1) eqn:Hlt.
    + apply StronglySorted_cons. split; [|apply IH, Hl].
      apply (Permutation_Forall (Permutation_sym (insert_sorted_perm x l))).
      constructor; [apply ltb_asym, Hlt | exact Hy].
    + apply StronglySorted_cons. split.
      * constructor; [exact Hlt|].
        eapply Forall_impl; [exact Hy|].
        intros z Hz. exact (not_ltb_trans _ _ _ Hlt Hz).
      * apply StronglySorted_cons. split; assumption.
Qed.

Lemma sort_asc_sorted l : StronglySorted key_le (sort_asc l).
Proof.
  induction l as [|x l IH]; cbn [sort_asc]; [constructor|].
  apply insert_sorted_sorted, IH.
Qed.

Lemma distinct_keys_inj l x y :
  NoDup (List.map fst l) → x ∈ l → y ∈ l → x.1 = y.1 → x = y.
Proof.
  induction l as [|z l IH]; cbn [List.map]; intros Hnd Hx Hy Heq.
  - apply elem_of_nil in Hx as [].
  - apply NoDup_cons in Hnd as [Hz Hnd].
    apply elem_of_cons in Hx as [-> | Hx]; apply elem_of_cons in Hy as [-> | Hy].
    + reflexivity.
    + exfalso. apply Hz. rewrite Heq. apply (list_elem_of_fmap_2 fst), Hy.
    + exfalso. apply Hz. rewrite <- Heq. apply (list_elem_of_fmap_2 fst), Hx.
    + apply IH; assumption.
Qed.

(** With pairwise distinct keys the ascending result does not depend on
    the order of the input. *)
Lemma sort_asc_rev_distinct l :
  NoDup (List.map fst l) → sort_asc (List.rev l) = sort_asc l.
Proof.
  intros Hnd.
  apply (StronglySorted_unique_strong key_le);
    [|apply sort_asc_sorted..|].
  - intros x y Hx Hy Hxy Hyx.
    rewrite sort_asc_perm in Hx, Hy. rewrite <- Permutation_rev in Hx.
    apply (distinct_keys_inj l); try assumption.
    apply ltb_trichotomy; assumption.
  - rewrite !sort_asc_perm. symmetry. apply Permutation_rev.
Qed.

End SortFacts.

Section SortPosts.
Variable f : string.
Hypothesis Hf : f = "title" ∨ f = "content".

Lemma sort_key_text (p : dict) : text_post p → sort_key f p = Ok (key_of f p).
Proof.
  intros (t & c & Ht & Hc). unfold sort_key, key_of, getitem.
  destruct Hf as [-> | ->]; [rewrite Ht | rewrite Hc]; reflexivity.
Qed.

Lemma decorate_text (posts : list dict) :
  Forall text_post posts →
  decorate (sort_key f) posts = Ok (List.map (keyed f) posts).
Proof.
  induction 1 as [|p l Hp _ IH]; cbn [decorate List.map]; [reflexivity|].
  rewrite (sort_key_text p Hp). simpl. rewrite IH. reflexivity.
Qed.

Lemma sort_posts_text (posts : list dict) (direction : string) :
  Forall text_post posts →
  sort_posts posts f direction =
    Ok (List.map snd
          (if String.eqb direction "desc"
           then List.rev (sort_asc (List.rev (List.map (keyed f) posts)))
           else sort_asc (List.map (keyed f) posts))).
Proof.
  intros Ht. unfold sort_posts, sorted. rewrite (decorate_text posts Ht). reflexivity.
Qed.

Lemma list_posts_sorts (direction : string) (posts : list dict) :
  direction = "asc" ∨ direction = "desc" →
  list_posts f direction posts =
    match sort_posts posts f direction with
    | Ok sorted_posts => (Ok (PList sorted_posts, 200), posts)
    | Raised => (Raised, posts)
    end.
Proof.
  intros Hd. unfold list_posts, handle_posts.
  rewrite lookup_insert_eq, lookup_insert_ne by discriminate.
  rewrite lookup_singleton_eq.
  destruct Hf as [-> | ->]; destruct Hd as [-> | ->]; reflexivity.
Qed.

Lemma with_key_snd (k : string) (l : list (string * dict)) :
  Forall (λ x, x.1 = key_of f x.2) l →
  with_key f k (List.map snd l) = List.map snd (List.filter (λ y, String.eqb y.1 k) l).
Proof.
  unfold with_key. induction 1 as [|x l Hx _ IH]; [reflexivity|].
  cbn [List.map List.filter]. rewrite <- Hx, IH.
  destruct (String.eqb x.1 k); reflexivity.
Qed.

Lemma keyed_coherent (posts : list dict) :
  Forall (λ x, x.1 = key_of f x.2) (List.map (keyed f) posts).
Proof. apply List.Forall_map, Forall_forall. reflexivity. Qed.

Lemma filter_keyed (k : string) (posts : list dict) :
  List.filter (λ y, String.eqb y.1 k) (List.map (keyed f) posts) =
  List.map (keyed f) (with_key f k posts).
Proof.
  unfold with_key. induction posts as [|p l IH]; [reflexivity|].
  cbn [List.map List.filter keyed fst]. rewrite IH.
  destruct (String.eqb (key_of f p) k); reflexivity.
Qed.

Lemma snd_keyed (posts : list dict) : List.map snd (List.map (keyed f) posts) = posts.
Proof.
  rewrite List.map_map. cbn [keyed snd]. apply List.map_id.
Qed.

Lemma sorted_snd (l : list (string * dict)) :
  Forall (λ x, x.1 = key_of f x.2) l →
  StronglySorted key_le l → StronglySorted (not_after f) (List.map snd l).
Proof.
  intros Hco Hs. induction Hs as [|x l Hs IH Hx]; cbn [List.map]; [constructor|].
  apply Forall_cons in Hco as [Hx' Hco].
  constructor; [apply IH, Hco|].
  apply List.Forall_map. rewrite Forall_forall in Hx, Hco |- *.
  intros y Hy. unfold not_after. rewrite <- Hx', <- (Hco y Hy). apply Hx, Hy.
Qed.

End SortPosts.

Lemma sorted_rev {B : Type} (R : B → B → Prop) (l : list B) :
  StronglySorted R l → StronglySorted (flip R) (List.rev l).
Proof.
  induction 1 as [|x l Hs IH Hx]; cbn [List.rev]; [constructor|].
  apply StronglySorted_app. split; [|split; [exact IH | repeat constructor]].
  intros y z Hy ->%list_elem_of_singleton.
  rewrite Forall_forall in Hx. apply Hx.
  apply list_elem_of_In, List.in_rev, list_elem_of_In, Hy.
Qed.

Section SortProperties.

(** C1 as stated fails when two records tie on the lower-cased key: both
    directions keep the tied records in insertion order, so the descending
    result is not the reversed ascending result. *)
Lemma desc_is_not_reversed_asc_on_ties :
  ∃ asc desc,
    list_posts "title" "asc" [mk_post 1 "a" "x"; mk_post 2 "A" "y"]
      = (Ok (PList asc, 200), [mk_post 1 "a" "x"; mk_post 2 "A" "y"]) ∧
    list_posts "title" "desc" [mk_post 1 "a" "x"; mk_post 2 "A" "y"]
      = (Ok (PList desc, 200), [mk_post 1 "a" "x"; mk_post 2 "A" "y"]) ∧
    ids asc = [1; 2] ∧ ids desc = [1; 2] ∧
    desc ≠ List.rev asc.
Proof.
  exists [mk_post 1 "a" "x"; mk_post 2 "A" "y"], [mk_post 1 "a" "x"; mk_post 2 "A" "y"].
  split; [vm_compute; reflexivity|].
  split; [vm_compute; reflexivity|].
  split; [vm_compute; reflexivity|].
  split; [vm_compute; reflexivity|].
  intros Heq. apply (f_equal ids) in Heq. vm_compute in Heq. discriminate Heq.
Qed.

(** C1, amended: on records with text fields and for the sort fields
    [title] and [content], both directions answer 200 with a rearrangement
    of the collection; the ascending answer has its lower-cased keys in
    non-decreasing order and the descending answer in non-increasing order;
    in both, records with the same key stay in insertion order; and the
    descending answer is the reversal of the ascending one whenever no two
    records share a key. *)
Theorem desc_is_stable_descending_sort (f : string) (posts : list dict)
    (Hf : f = "title" ∨ f = "content") (Ht : Forall text_post posts) :
  ∃ asc desc,
    list_posts f "asc" posts = (Ok (PList asc, 200), posts) ∧
    list_posts f "desc" posts = (Ok (PList desc, 200), posts) ∧
    asc ≡ₚ posts ∧ desc ≡ₚ posts ∧
    StronglySorted (not_after f) asc ∧
    StronglySorted (flip (not_after f)) desc ∧
    (∀ k, with_key f k asc = with_key f k posts ∧
          with_key f k desc = with_key f k posts) ∧
    (NoDup (List.map (key_of f) posts) → desc = List.rev asc).
Proof.
  set (ks := List.map (keyed f) posts).
  assert (Forall (λ x : string * dict, x.1 = key_of f x.2) (sort_asc ks)) as Hasc.
  { apply (Permutation_Forall (Permutation_sym (sort_asc_perm ks))), keyed_coherent. }
  assert (Forall (λ x : string * dict, x.1 = key_of f x.2) (sort_asc (List.rev ks))) as Hdesc.
  { apply (Permutation_Forall (Permutation_sym (sort_asc_perm (List.rev ks)))).
    apply (Permutation_Forall (Permutation_rev ks)), keyed_coherent. }
  exists (List.map snd (sort_asc ks)),
         (List.map snd (List.rev (sort_asc (List.rev ks)))).
  split; [|split].
  { rewrite (list_posts_sorts f Hf) by (left; reflexivity).
    rewrite (sort_posts_text f Hf posts "asc" Ht). reflexivity. }
  { rewrite (list_posts_sorts f Hf) by (right; reflexivity).
    rewrite (sort_posts_text f Hf posts "desc" Ht). reflexivity. }
  split; [|split].
  { rewrite sort_asc_perm. unfold ks. rewrite snd_keyed. reflexivity. }
  { rewrite <- Permutation_rev, sort_asc_perm, <- Permutation_rev.
    unfold ks. rewrite snd_keyed. reflexivity. }
  split; [|split].
  { apply sorted_snd; [exact Hasc | apply sort_asc_sorted]. }
  { rewrite List.map_rev. apply sorted_rev, sorted_snd; [exact Hdesc | apply sort_asc_sorted]. }
  split.
  - intros k. split.
    + rewrite (with_key_snd f k _ Hasc), sort_asc_stable.
      unfold ks. rewrite filter_keyed, snd_keyed. reflexivity.
    + rewrite List.map_rev. unfold with_key at 1. rewrite List.filter_rev.
      fold (with_key f k (List.map snd (sort_asc (List.rev ks)))).
      rewrite (with_key_snd f k _ Hdesc), sort_asc_stable, List.filter_rev.
      unfold ks. rewrite filter_keyed, List.map_rev, snd_keyed.
      apply List.rev_involutive.
  - intros Hnd. rewrite sort_asc_rev_distinct; [rewrite List.map_rev; reflexivity|].
    unfold ks. rewrite List.map_map. exact Hnd.
Qed.

Lemma desc_is_stable_descending_sort_witness :
  ∃ asc desc,
    list_posts "title" "asc" POSTS = (Ok (PList asc, 200), POSTS) ∧
    list_posts "title" "desc" POSTS = (Ok (PList desc, 200), POSTS) ∧
    asc ≡ₚ POSTS ∧ desc ≡ₚ POSTS ∧
    StronglySorted (not_after "title") asc ∧
    StronglySorted (flip (not_after "title")) desc ∧
    (∀ k, with_key "title" k asc = with_key "title" k POSTS ∧
          with_key "title" k desc = with_key "title" k POSTS) ∧
    (NoDup (List.map (key_of "title") POSTS) → desc = List.rev asc).
Proof.
  apply (desc_is_stable_descending_sort "title" POSTS).
  - left. reflexivity.
  - exact seed_text_posts.
Defined.

End SortProperties.

Lemma search_text (args : gmap string string) (posts : list dict) :
  Forall text_post posts →
  search args posts =
    (Ok (PList (List.filter
                  (spec_matchb (default "" (args !! "title")) (default "" (args !! "content")))
                  posts), 200), posts).
Proof.
  intros Ht. unfold search. rewrite (search_loop_text _ _ posts Ht []). reflexivity.
Qed.

(** ** The scenarios of the description, evaluated *)

Section Scenarios.

Lemma seed_next_id : next_id POSTS = Ok 23.
Proof. vm_compute. reflexivity. Qed.

Lemma seed_lacks (id : Z) : 22 < id → id ∉ ids POSTS.
Proof.
  intros Hid Hin. pose proof (next_id_fresh _ _ seed_int_ids seed_next_id) as Hfresh.
  rewrite Forall_forall in Hfresh. specialize (Hfresh id Hin). lia.
Qed.

Example create_on_seed_takes_23 :
  handle_posts (POST (Some {[ "title" := JStr "X"; "content" := JStr "Y" ]})) POSTS =
    (Ok (message "Created", 201),
     POSTS ++ [ {[ "id" := JInt 23; "title" := JStr "X"; "content" := JStr "Y" ]} ]).
Proof. apply create_valid; [exact seed_next_id | vm_compute; reflexivity..]. Qed.

Example delete_23_twice :
  delete 23 (POSTS ++ [mk_post 23 "X" "Y"]) =
    (Ok (message "Post with id 23 has been deleted successfully.", 200), POSTS) ∧
  delete 23 POSTS = (Ok (error "Post with id 23 was not found.", 404), POSTS).
Proof.
  assert (post_id (mk_post 23 "X" "Y") = Some 23) as Hid by (vm_compute; reflexivity).
  split.
  - rewrite (delete_present 23 (mk_post 23 "X" "Y") POSTS []).
    + rewrite app_nil_r. reflexivity.
    + apply int_ids_app. split; [exact seed_int_ids|].
      constructor; [rewrite Hid; eauto | constructor].
    + apply seed_lacks. lia.
    + exact Hid.
  - rewrite (delete_absent 23 POSTS seed_int_ids); [reflexivity | apply seed_lacks; lia].
Qed.

Example search_python_on_seed :
  search {[ "title" := "python" ]} POSTS =
    (Ok (PList [mk_post 3 "Exploring Python"
                  "Diving into the basics of Python and its versatility."], 200), POSTS).
Proof.
  rewrite (search_text _ _ seed_text_posts).
  rewrite lookup_singleton_eq, lookup_singleton_ne by discriminate.
  change (default "" (Some "python")) with "python". change (default "" None) with "".
  do 3 f_equal.
Qed.

Example update_999_not_found :
  update 999 (Some {[ "title" := JStr "Z" ]}) POSTS =
    (Ok (error "No post found with id 999.", 404), POSTS).
Proof.
  unfold update.
  replace (falsy_body (Some {[ "title" := JStr "Z" ]})) with false by (vm_compute; reflexivity).
  rewrite (update_loop_absent 999 _ POSTS seed_int_ids); [reflexivity | apply seed_lacks; lia].
Qed.

Example update_empty_title_keeps_title :
  update 1 (Some {[ "title" := JStr ""; "content" := JStr "new" ]}) [mk_post 1 "a" "b"] =
    (Ok (PObj (mk_post 1 "a" "new"), 200), [mk_post 1 "a" "new"]).
Proof. vm_compute. reflexivity. Qed.

Example sort_upper_case_direction :
  ids (match (handle_posts (GET {[ "sort" := "title"; "direction" := "DESC" ]})
                [mk_post 1 "b" "x"; mk_post 2 "C" "y"; mk_post 3 "a" "z"]).1 with
       | Ok (PList l, _) => l
       | _ => []
       end) = [2; 1; 3].
Proof. vm_compute. reflexivity. Qed.

End Scenarios.

(** ** Further properties of the handlers *)

Section ReadOnly.

(** X1: listing and searching never change the store, whatever the query
    arguments and whatever the store holds, also when the handler raises. *)
Theorem list_and_search_leave_store (args : gmap string string) (posts : list dict) :
  (handle_posts (GET args) posts).2 = posts ∧ (search args posts).2 = posts.
Proof.
  split.
  - unfold handle_posts.
    destruct (_ && _); [reflexivity|].
    destruct (negb _); [reflexivity|].
    destruct (str_truthy _); [|reflexivity].
    destruct (sort_posts _ _ _); reflexivity.
  - unfold search. destruct (search_loop _ _ _ _); reflexivity.
Qed.

End ReadOnly.

Section Statuses.

Ltac among := apply list_elem_of_In; cbn; auto.

Lemma str_in_allowed (f : string) :
  str_in f ["title"; "content"] = true → f = "title" ∨ f = "content".
Proof.
  unfold str_in. cbn [existsb]. rewrite orb_false_r.
  intros [H | H]%orb_true_iff; apply String.eqb_eq in H; auto.
Qed.

(** X2: on a store whose records carry integer ids and text title and
    content, no handler raises on a request that has no body, or whose
    decoded body is a JSON object or, for update, [null]: such a create
    answers 201 or 400, a list 200 or 400, a delete 200 or 404, such an
    update 200, 400 or 404 and a search 200.  (A body that decodes to
    [null] for create, or to a non-empty list, string or number for either,
    has no [get] method and is outside this statement.) *)
Theorem handlers_answer_without_raising (posts : list dict)
    (H : int_ids posts) (Ht : Forall text_post posts) :
  (∀ new_post, status (handle_posts (POST (Some new_post)) posts) ∈ [Some 201; Some 400]) ∧
  (∀ args, status (handle_posts (GET args) posts) ∈ [Some 200; Some 400]) ∧
  (∀ id, status (delete id posts) ∈ [Some 200; Some 404]) ∧
  (∀ id body, status (update id body posts) ∈ [Some 200; Some 400; Some 404]) ∧
  (∀ args, status (search args posts) = Some 200).
Proof.
  repeat apply conj.
  - intros new_post. unfold handle_posts. rewrite (next_id_int _ H).
    destruct (negb _); [among|]. destruct (negb _); among.
  - intros args. unfold handle_posts.
    destruct (str_truthy (args !! "sort")) eqn:Hs; cbn [andb].
    + destruct (str_in (default "" (args !! "sort")) ["title"; "content"]) eqn:Hin;
        cbn [negb]; [|among].
      destruct (negb _); [among|].
      rewrite (sort_posts_text _ (str_in_allowed _ Hin) posts _ Ht). among.
    + destruct (negb _); among.
  - intros id. destruct (decide (id ∈ ids posts)) as [Hin | Hnot].
    + destruct (present_split id posts H Hin) as (l1 & p & l2 & -> & Hnot & Hp).
      rewrite (delete_present id p l1 l2 H Hnot Hp). among.
    + rewrite (delete_absent id posts H Hnot). among.
  - intros id body. unfold update. destruct (falsy_body body); [among|].
    destruct (decide (id ∈ ids posts)) as [Hin | Hnot].
    + destruct (present_split id posts H Hin) as (l1 & p & l2 & -> & Hnot & Hp).
      apply int_ids_app in H as [H1 _].
      rewrite (update_loop_present _ _ _ _ _ H1 Hnot Hp). among.
    + rewrite (update_loop_absent _ _ _ H Hnot). among.
  - intros args. unfold search.
    rewrite (search_loop_text _ _ posts Ht []). reflexivity.
Qed.

Lemma handlers_answer_without_raising_witness :
  (∀ new_post, status (handle_posts (POST (Some new_post)) POSTS) ∈ [Some 201; Some 400]) ∧
  (∀ args, status (handle_posts (GET args) POSTS) ∈ [Some 200; Some 400]) ∧
  (∀ id, status (delete id POSTS) ∈ [Some 200; Some 404]) ∧
  (∀ id body, status (update id body POSTS) ∈ [Some 200; Some 400; Some 404]) ∧
  (∀ args, status (search args POSTS) = Some 200).
Proof. exact (handlers_answer_without_raising POSTS seed_int_ids seed_text_posts). Defined.

End Statuses.

Section StoreInvariant.

Lemma get_insert_ne (d : dict) (k k' : string) (v : json) :
  k ≠ k' → get (<[ k := v ]> d) k' = get d k'.
Proof. intros Hne. unfold get. rewrite lookup_insert_ne by exact Hne. reflexivity. Qed.

Lemma apply_details_filled (new_details p : dict) :
  filled p → filled (apply_details new_details p).
Proof.
  intros [Ht Hc]. unfold filled, get in *.
  rewrite apply_details_title, apply_details_content. unfold get. split.
  - destruct (new_details !! "title") as [v|]; simpl; [|exact Ht].
    destruct (truthy v) eqn:Hv; [exact Hv | exact Ht].
  - destruct (new_details !! "content") as [v|]; simpl; [|exact Hc].
    destruct (truthy v) eqn:Hv; [exact Hv | exact Hc].
Qed.

Lemma apply_details_post_id (new_details p : dict) :
  post_id (apply_details new_details p) = post_id p.
Proof. unfold post_id. rewrite apply_details_other by discriminate. reflexivity. Qed.

(** What an update leaves behind: the store itself, or the store with the
    first record of that id replaced by its updated version. *)
Lemma update_store (id : Z) (body : option dict) (posts : list dict) :
  int_ids posts →
  (update id body posts).2 = posts ∨
  ∃ l1 p l2, posts = l1 ++ p :: l2 ∧ post_id p = Some id ∧ (id ∉ ids l1) ∧
             (update id body posts).2 = l1 ++ apply_details (default ∅ body) p :: l2.
Proof.
  intros H. unfold update. destruct (falsy_body body); [left; reflexivity|].
  destruct (decide (id ∈ ids posts)) as [Hin | Hnot].
  - right. destruct (present_split id posts H Hin) as (l1 & p & l2 & -> & Hnot & Hp).
    apply int_ids_app in H as [H1 _].
    rewrite (update_loop_present _ _ _ _ _ H1 Hnot Hp). eauto 8.
  - left. rewrite (update_loop_absent _ _ _ H Hnot). reflexivity.
Qed.

(** What a delete leaves behind: the store itself, or the store without
    the first record of that id. *)
Lemma delete_store (id : Z) (posts : list dict) :
  int_ids posts →
  (delete id posts).2 = posts ∨
  ∃ l1 p l2, posts = l1 ++ p :: l2 ∧ post_id p = Some id ∧ (id ∉ ids l1) ∧
             (delete id posts).2 = l1 ++ l2.
Proof.
  intros H. destruct (decide (id ∈ ids posts)) as [Hin | Hnot].
  - right. destruct (present_split id posts H Hin) as (l1 & p & l2 & -> & Hnot & Hp).
    rewrite (delete_present id p l1 l2 H Hnot Hp). eauto 8.
  - left. rewrite (delete_absent id posts H Hnot). reflexivity.
Qed.

(** What a create leaves behind: the store itself, or the store with the
    body appended under the next id, title and content not empty. *)
Lemma create_store (body : option dict) (posts : list dict) :
  int_ids posts →
  (handle_posts (POST body) posts).2 = posts ∨
  ∃ new_post n, body = Some new_post ∧ next_id posts = Ok n ∧
                filled new_post ∧
                (handle_posts (POST body) posts).2 = posts ++ [<[ "id" := JInt n ]> new_post].
Proof.
  intros H. unfold handle_posts. pose proof (next_id_int _ H) as Hn. rewrite Hn.
  destruct body as [new_post|]; [|left; reflexivity].
  destruct (truthy (get new_post "title")) eqn:Ht; cbn [negb]; [|left; reflexivity].
  destruct (truthy (get new_post "content")) eqn:Hc; cbn [negb]; [|left; reflexivity].
  right. exists new_post. eexists. split; [reflexivity|]. split; [reflexivity|].
  split; [split; assumption | reflexivity].
Qed.

Lemma ids_update_at (new_details p : dict) (l1 l2 : list dict) :
  ids (l1 ++ apply_details new_details p :: l2) = ids (l1 ++ p :: l2).
Proof.
  rewrite !ids_app. f_equal. cbn [ids List.map]. f_equal.
  unfold id_of. rewrite apply_details_post_id. reflexivity.
Qed.

Lemma next_id_positive (posts : list dict) (n : Z) :
  int_ids posts → Forall (λ x, 1 ≤ x) (ids posts) → next_id posts = Ok n → 1 ≤ n.
Proof.
  intros H Hpos Hn. pose proof (next_id_fresh _ _ H Hn) as Hfresh.
  rewrite (next_id_int _ H) in Hn.
  destruct (ids posts) as [|m ms]; [injection Hn as <-; lia|].
  apply Forall_cons in Hpos as [Hm _]. apply Forall_cons in Hfresh as [Hm' _]. lia.
Qed.

(** The invariant of the store under create, delete and update: integer
    ids, at least 1 and strictly increasing along the list, and a title and
    a content that are not empty. *)
Lemma step_keeps_invariant (posts : list dict) (c : call) :
  int_ids posts ∧ StronglySorted Z.lt (ids posts) ∧
    Forall (λ x, 1 ≤ x) (ids posts) ∧ Forall filled posts →
  int_ids (step posts c) ∧ StronglySorted Z.lt (ids (step posts c)) ∧
    Forall (λ x, 1 ≤ x) (ids (step posts c)) ∧ Forall filled (step posts c).
Proof.
  intros (H & Hs & Hpos & Hfill). destruct c as [body | id | id body]; cbn [step].
  - destruct (create_store body posts H) as [-> | (b & n & _ & Hn & Hb & ->)];
      [repeat split; assumption|].
    assert (post_id (<[ "id" := JInt n ]> b) = Some n) as Hid
      by (apply post_id_lookup, lookup_insert_eq).
    assert (ids (posts ++ [<[ "id" := JInt n ]> b]) = ids posts ++ [n]) as ->
      by (rewrite ids_app; f_equal; cbn [ids List.map]; unfold id_of; rewrite Hid; reflexivity).
    repeat apply conj.
    + apply int_ids_app. split; [exact H|]. constructor; [rewrite Hid; eauto | constructor].
    + apply StronglySorted_app. split; [|split; [exact Hs | repeat constructor]].
      intros x y Hx ->%list_elem_of_singleton.
      pose proof (next_id_fresh _ _ H Hn) as Hfresh.
      rewrite Forall_forall in Hfresh. apply Hfresh, Hx.
    + apply Forall_app. split; [exact Hpos|].
      constructor; [exact (next_id_positive _ _ H Hpos Hn) | constructor].
    + apply Forall_app. split; [exact Hfill|]. constructor; [|constructor].
      destruct Hb as [Ht Hc]. unfold filled.
      rewrite !get_insert_ne by discriminate. split; assumption.
  - destruct (delete_store id posts H) as [-> | (l1 & p & l2 & -> & _ & _ & ->)];
      [repeat split; assumption|].
    rewrite ids_app in Hs, Hpos |- *. cbn [ids List.map] in Hs, Hpos.
    apply int_ids_app in H as [H1 [_ H2]%Forall_cons].
    apply Forall_app in Hfill as [Hf1 [_ Hf2]%Forall_cons].
    apply Forall_app in Hpos as [Hp1 [_ Hp2]%Forall_cons].
    apply StronglySorted_app in Hs as (Hcross & Hs1 & [_ Hs2]%StronglySorted_cons).
    repeat apply conj.
    + apply int_ids_app. split; assumption.
    + apply StronglySorted_app. split; [|split; assumption].
      intros x y Hx Hy. apply Hcross; [exact Hx | right; exact Hy].
    + apply Forall_app. split; assumption.
    + apply Forall_app. split; assumption.
  - destruct (update_store id body posts H) as [-> | (l1 & p & l2 & -> & _ & _ & ->)];
      [repeat split; assumption|].
    rewrite ids_update_at. repeat apply conj; try assumption.
    + apply int_ids_app in H as [H1 [Hp H2]%Forall_cons].
      apply int_ids_app. split; [exact H1|].
      constructor; [rewrite apply_details_post_id; exact Hp | exact H2].
    + apply Forall_app in Hfill as [Hf1 [Hp Hf2]%Forall_cons].
      apply Forall_app. split; [exact Hf1|].
      constructor; [apply apply_details_filled, Hp | exact Hf2].
Qed.

Lemma seed_ids_increasing : StronglySorted Z.lt (ids POSTS).
Proof. apply (bool_decide_unpack (StronglySorted Z.lt (ids POSTS))). vm_compute. exact I. Qed.

Lemma seed_ids_positive : Forall (λ x, 1 ≤ x) (ids POSTS).
Proof. apply (bool_decide_unpack (Forall (λ x, 1 ≤ x) (ids POSTS))). vm_compute. exact I. Qed.

Lemma seed_filled : Forall filled POSTS.
Proof.
  unfold POSTS. repeat (constructor; [split; vm_compute; reflexivity|]). constructor.
Qed.

Lemma steps_keep_invariant (calls : list call) :
  ∀ posts,
    int_ids posts ∧ StronglySorted Z.lt (ids posts) ∧
      Forall (λ x, 1 ≤ x) (ids posts) ∧ Forall filled posts →
    int_ids (steps calls posts) ∧ StronglySorted Z.lt (ids (steps calls posts)) ∧
      Forall (λ x, 1 ≤ x) (ids (steps calls posts)) ∧ Forall filled (steps calls posts).
Proof.
  induction calls as [|c calls IH]; intros posts Hinv; [exact Hinv|].
  apply IH, step_keeps_invariant, Hinv.
Qed.

Lemma seed_invariant :
  int_ids POSTS ∧ StronglySorted Z.lt (ids POSTS) ∧
    Forall (λ x, 1 ≤ x) (ids POSTS) ∧ Forall filled POSTS.
Proof.
  repeat apply conj;
    [exact seed_int_ids | exact seed_ids_increasing | exact seed_ids_positive | exact seed_filled].
Qed.

(** X3: whatever creates, deletes and updates are run from the seed, the
    ids of the store are integers, at least 1, and strictly increasing in
    insertion order; an update therefore never breaks the distinctness of
    the ids, and the unsorted listing is in id order. *)
Theorem ids_stay_increasing (calls : list call) :
  int_ids (steps calls POSTS) ∧
  StronglySorted Z.lt (ids (steps calls POSTS)) ∧
  Forall (λ x, 1 ≤ x) (ids (steps calls POSTS)) ∧
  NoDup (ids (steps calls POSTS)).
Proof.
  destruct (steps_keep_invariant calls POSTS seed_invariant) as (H & Hs & Hpos & _).
  repeat apply conj; try assumption.
  clear H Hpos. induction Hs as [|x l Hs IH Hx]; [constructor|].
  apply NoDup_cons. split; [|exact IH].
  intros Hin. rewrite Forall_forall in Hx. specialize (Hx x Hin). lia.
Qed.

(** X4: whatever creates, deletes and updates are run from the seed, every
    record of the store has a title and a content that are present and not
    empty: create refuses empty ones and update skips them. *)
Theorem title_and_content_stay_filled (calls : list call) :
  Forall filled (steps calls POSTS).
Proof. apply (steps_keep_invariant calls POSTS seed_invariant). Qed.

End StoreInvariant.

Section Composition.

Lemma fresh_not_in (posts : list dict) (n : Z) :
  int_ids posts → next_id posts = Ok n → n ∉ ids posts.
Proof.
  intros H Hn Hin. pose proof (next_id_fresh _ _ H Hn) as Hfresh.
  rewrite Forall_forall in Hfresh. specialize (Hfresh n Hin). lia.
Qed.

(** X5: on a store with integer ids, a successful create followed by the
    delete of the id it assigned gives back the store as it was, so the
    next create is given the same id again. *)
Theorem create_then_delete_restores (posts : list dict) (new_post : dict) (t c : json)
    (H : int_ids posts)
    (Ht : supplied new_post "title" t) (Hc : supplied new_post "content" c) :
  ∃ n,
    next_id posts = Ok n ∧
    delete n (handle_posts (POST (Some new_post)) posts).2 =
      (Ok (message ("Post with id " +:+ pretty n +:+ " has been deleted successfully."), 200),
       posts) ∧
    next_id (delete n (handle_posts (POST (Some new_post)) posts).2).2 = Ok n.
Proof.
  pose proof (next_id_int _ H) as Hn.
  eexists. split; [exact Hn|].
  rewrite (create_valid _ _ _ Hn (supplied_truthy _ _ _ Ht) (supplied_truthy _ _ _ Hc)).
  cbn [snd].
  set (n := match ids posts with [] => 1 | m :: ms => py_max m ms + 1 end) in *.
  assert (post_id (<[ "id" := JInt n ]> new_post) = Some n) as Hid
    by (apply post_id_lookup, lookup_insert_eq).
  assert (int_ids (posts ++ [<[ "id" := JInt n ]> new_post])) as H'.
  { apply int_ids_app. split; [exact H|]. constructor; [rewrite Hid; eauto | constructor]. }
  rewrite (delete_present n _ posts [] H' (fresh_not_in _ _ H Hn) Hid).
  rewrite app_nil_r. split; [reflexivity | exact Hn].
Qed.

Lemma create_then_delete_restores_witness :
  ∃ n,
    next_id POSTS = Ok n ∧
    delete n (handle_posts
                (POST (Some {[ "title" := JStr "X"; "content" := JStr "Y" ]})) POSTS).2 =
      (Ok (message ("Post with id " +:+ pretty n +:+ " has been deleted successfully."), 200),
       POSTS) ∧
    next_id (delete n (handle_posts
                (POST (Some {[ "title" := JStr "X"; "content" := JStr "Y" ]})) POSTS).2).2
      = Ok n.
Proof.
  apply (create_then_delete_restores POSTS
           {[ "title" := JStr "X"; "content" := JStr "Y" ]} (JStr "X") (JStr "Y")).
  - exact seed_int_ids.
  - split; vm_compute; reflexivity.
  - split; vm_compute; reflexivity.
Defined.

Lemma apply_details_twice (new_details p : dict) :
  apply_details new_details (apply_details new_details p) = apply_details new_details p.
Proof.
  apply map_eq. intros k.
  destruct (decide (k = "title")) as [-> | Ht].
  { rewrite !apply_details_title. destruct (truthy _); reflexivity. }
  destruct (decide (k = "content")) as [-> | Hc].
  { rewrite !apply_details_content. destruct (truthy _); reflexivity. }
  rewrite !apply_details_other by assumption. reflexivity.
Qed.

(** X6: on a store with integer ids an update is idempotent: repeating the
    same update on the store it left behind gives the same answer and
    leaves the same store. *)
Theorem update_is_idempotent (id : Z) (body : option dict) (posts : list dict)
    (H : int_ids posts) :
  update id body (update id body posts).2 = update id body posts.
Proof.
  unfold update. destruct (falsy_body body) eqn:Hb; [reflexivity|].
  destruct (decide (id ∈ ids posts)) as [Hin | Hnot].
  - destruct (present_split id posts H Hin) as (l1 & p & l2 & -> & Hnot & Hp).
    apply int_ids_app in H as [H1 _].
    rewrite (update_loop_present _ _ _ _ _ H1 Hnot Hp). cbn [snd].
    rewrite (update_loop_present _ _ _ _ _ H1 Hnot);
      [|rewrite apply_details_post_id; exact Hp].
    rewrite apply_details_twice. reflexivity.
  - rewrite (update_loop_absent _ _ _ H Hnot). cbn [snd].
    rewrite (update_loop_absent _ _ _ H Hnot). reflexivity.
Qed.

Lemma update_is_idempotent_witness :
  update 3 (Some {[ "title" := JStr "Z" ]})
    (update 3 (Some {[ "title" := JStr "Z" ]}) POSTS).2 =
  update 3 (Some {[ "title" := JStr "Z" ]}) POSTS.
Proof. exact (update_is_idempotent 3 (Some {[ "title" := JStr "Z" ]}) POSTS seed_int_ids). Defined.

(** X7: a create stores the body as it came, extra fields included, except
    for the id: the stored record has the id computed by the store, also
    when the body supplies one of its own, and under every other key the
    value, or the absence, of the body. *)
Theorem create_keeps_fields_and_overrides_id
    (posts : list dict) (new_post : dict) (t c : json)
    (H : int_ids posts)
    (Ht : supplied new_post "title" t) (Hc : supplied new_post "content" c) :
  ∃ n stored,
    next_id posts = Ok n ∧
    (handle_posts (POST (Some new_post)) posts).2 = posts ++ [stored] ∧
    stored !! "id" = Some (JInt n) ∧
    (n ∉ ids posts) ∧
    ∀ k, k ≠ "id" → stored !! k = new_post !! k.
Proof.
  pose proof (next_id_int _ H) as Hn.
  eexists _, _. split; [exact Hn|].
  rewrite (create_valid _ _ _ Hn (supplied_truthy _ _ _ Ht) (supplied_truthy _ _ _ Hc)).
  split; [reflexivity|]. split; [apply lookup_insert_eq|].
  split; [exact (fresh_not_in _ _ H Hn)|].
  intros k Hk. apply lookup_insert_ne. congruence.
Qed.

Lemma create_keeps_fields_and_overrides_id_witness :
  ∃ n stored,
    next_id POSTS = Ok n ∧
    (handle_posts
       (POST (Some {[ "id" := JInt 1; "title" := JStr "X"; "content" := JStr "Y";
                      "tag" := JStr "news" ]})) POSTS).2 = POSTS ++ [stored] ∧
    stored !! "id" = Some (JInt n) ∧
    (n ∉ ids POSTS) ∧
    ∀ k, k ≠ "id" →
         stored !! k =
           ({[ "id" := JInt 1; "title" := JStr "X"; "content" := JStr "Y";
               "tag" := JStr "news" ]} : dict) !! k.
Proof.
  apply (create_keeps_fields_and_overrides_id POSTS
           {[ "id" := JInt 1; "title" := JStr "X"; "content" := JStr "Y";
              "tag" := JStr "news" ]} (JStr "X") (JStr "Y")).
  - exact seed_int_ids.
  - split; vm_compute; reflexivity.
  - split; vm_compute; reflexivity.
Defined.

End Composition.

Section CreateThenQuery.

Lemma append_empty_r (s : string) : s +:+ "" = s.
Proof. induction s as [|a s IH]; [reflexivity|]. rewrite append_cons, IH. reflexivity. Qed.

Lemma contains_refl (s : string) : contains s s = true.
Proof.
  apply contains_occurs. exists "", "".
  change ("" +:+ s +:+ "") with (s +:+ ""). symmetry. apply append_empty_r.
Qed.

(** X8: on a store with integer ids and text fields, a record created with
    a text title and a text content, both not empty, is found by a search
    for its own title: it is the last record of the answer. *)
Theorem created_record_is_found (posts : list dict) (new_post : dict) (t c : string)
    (H : int_ids posts) (Htext : Forall text_post posts)
    (Ht : new_post !! "title" = Some (JStr t)) (Htne : t ≠ "")
    (Hc : new_post !! "content" = Some (JStr c)) (Hcne : c ≠ "") :
  ∃ n before,
    next_id posts = Ok n ∧
    search {[ "title" := t ]} (handle_posts (POST (Some new_post)) posts).2 =
      (Ok (PList (before ++ [<[ "id" := JInt n ]> new_post]), 200),
       posts ++ [<[ "id" := JInt n ]> new_post]).
Proof.
  pose proof (next_id_int _ H) as Hn.
  apply String.eqb_neq in Htne, Hcne.
  assert (truthy (get new_post "title") = true) as Htr
    by (unfold get; rewrite Ht; simpl; rewrite Htne; reflexivity).
  assert (truthy (get new_post "content") = true) as Hcr
    by (unfold get; rewrite Hc; simpl; rewrite Hcne; reflexivity).
  eexists _, _. split; [exact Hn|].
  rewrite (create_valid _ _ _ Hn Htr Hcr). cbn [snd].
  set (stored := <[ "id" := JInt _ ]> new_post).
  assert (stored !! "title" = Some (JStr t)) as Hst
    by (unfold stored; rewrite lookup_insert_ne by discriminate; exact Ht).
  assert (stored !! "content" = Some (JStr c)) as Hsc
    by (unfold stored; rewrite lookup_insert_ne by discriminate; exact Hc).
  assert (Forall text_post (posts ++ [stored])) as Htext'.
  { apply Forall_app. split; [exact Htext|].
    constructor; [|constructor]. exists t, c. split; assumption. }
  rewrite (search_text _ _ Htext').
  rewrite lookup_singleton_eq, lookup_singleton_ne by discriminate.
  change (default "" (Some t)) with t. change (default "" None) with "".
  rewrite List.filter_app. cbn [List.filter].
  replace (spec_matchb t "" stored) with true; [reflexivity|].
  unfold spec_matchb, key_of. rewrite Hst, Htne, contains_refl. reflexivity.
Qed.

Lemma created_record_is_found_witness :
  ∃ n before,
    next_id POSTS = Ok n ∧
    search {[ "title" := "Flask tips" ]}
      (handle_posts
         (POST (Some {[ "title" := JStr "Flask tips"; "content" := JStr "Y" ]})) POSTS).2 =
      (Ok (PList (before ++
                  [<[ "id" := JInt n ]>
                     ({[ "title" := JStr "Flask tips"; "content" := JStr "Y" ]} : dict)]), 200),
       POSTS ++ [<[ "id" := JInt n ]>
                   ({[ "title" := JStr "Flask tips"; "content" := JStr "Y" ]} : dict)]).
Proof.
  apply (created_record_is_found POSTS
           {[ "title" := JStr "Flask tips"; "content" := JStr "Y" ]} "Flask tips" "Y").
  - exact seed_int_ids.
  - exact seed_text_posts.
  - vm_compute. reflexivity.
  - discriminate.
  - vm_compute. reflexivity.
  - discriminate.
Defined.

Lemma field_matches_raises (query k : string) (p : dict) :
  query ≠ "" → ¬ text_field k p → field_matches query k p = Raised.
Proof.
  intros Hq%String.eqb_neq Hbad. unfold field_matches, getitem. rewrite Hq.
  destruct (p !! k) as [v|] eqn:Hk; [|reflexivity].
  destruct v; try reflexivity. exfalso. apply Hbad. eexists. exact Hk.
Qed.

Lemma search_loop_raises (tq cq : string) (posts : list dict) :
  tq ≠ "" → Exists (λ p, ¬ text_field "title" p) posts →
  ∀ acc, search_loop tq cq posts acc = Raised.
Proof.
  intros Hq. induction 1 as [p l Hbad | p l _ IH]; intros acc; cbn [search_loop].
  - rewrite (field_matches_raises _ _ _ Hq Hbad). reflexivity.
  - destruct (field_matches tq "title" p) as [tm|]; [|reflexivity].
    destruct (field_matches cq "content" p) as [cm|]; [|reflexivity].
    apply IH.
Qed.

Lemma decorate_raises (f : string) (posts : list dict) :
  Exists (λ p, ¬ text_field f p) posts → decorate (sort_key f) posts = Raised.
Proof.
  induction 1 as [p l Hbad | p l _ IH]; cbn [decorate].
  - replace (sort_key f p) with (@Raised string); [reflexivity|].
    unfold sort_key, getitem.
    destruct (p !! f) as [v|] eqn:Hk; [|reflexivity].
    destruct v; try reflexivity. exfalso. apply Hbad. eexists. exact Hk.
  - destruct (sort_key f p) as [k|]; [|reflexivity].
    simpl. rewrite IH. reflexivity.
Qed.

(** X9: the checks of create accept any non-empty JSON value as a title;
    when the title is not a string (a number, a list) the create answers
    201 all the same, and from then on every search with a non-empty title
    query and every listing sorted by title raises instead of answering. *)
Theorem non_text_title_breaks_search_and_sort
    (posts : list dict) (new_post : dict) (v c : json)
    (H : int_ids posts)
    (Hv : supplied new_post "title" v) (Hnt : ∀ s, v ≠ JStr s)
    (Hc : supplied new_post "content" c) :
  ∃ after,
    handle_posts (POST (Some new_post)) posts = (Ok (message "Created", 201), after) ∧
    (∀ args q, args !! "title" = Some q → q ≠ "" → search args after = (Raised, after)) ∧
    (∀ d, d = "asc" ∨ d = "desc" → list_posts "title" d after = (Raised, after)).
Proof.
  pose proof (next_id_int _ H) as Hn.
  eexists. split.
  { exact (create_valid _ _ _ Hn (supplied_truthy _ _ _ Hv) (supplied_truthy _ _ _ Hc)). }
  set (stored := <[ "id" := JInt _ ]> new_post).
  assert (Exists (λ p, ¬ text_field "title" p) (posts ++ [stored])) as Hbad.
  { apply Exists_app. right. constructor. intros [s Hs].
    unfold stored in Hs. rewrite lookup_insert_ne in Hs by discriminate.
    destruct Hv as [Hv _]. rewrite Hv in Hs. injection Hs as Hs. exact (Hnt s Hs). }
  split.
  - intros args q Hq Hne. unfold search. rewrite Hq. cbn [default].
    rewrite search_loop_raises; [reflexivity | | exact Hbad].
    intros Hl. apply Hne. destruct q; [reflexivity | discriminate Hl].
  - intros d Hd.
    rewrite (list_posts_sorts "title" (or_introl eq_refl) d _ Hd).
    unfold sort_posts, sorted. rewrite (decorate_raises _ _ Hbad). reflexivity.
Qed.

Lemma non_text_title_breaks_search_and_sort_witness :
  ∃ after,
    handle_posts (POST (Some {[ "title" := JInt 5; "content" := JStr "Y" ]})) POSTS =
      (Ok (message "Created", 201), after) ∧
    (∀ args q, args !! "title" = Some q → q ≠ "" → search args after = (Raised, after)) ∧
    (∀ d, d = "asc" ∨ d = "desc" → list_posts "title" d after = (Raised, after)).
Proof.
  apply (non_text_title_breaks_search_and_sort POSTS
           {[ "title" := JInt 5; "content" := JStr "Y" ]} (JInt 5) (JStr "Y")).
  - exact seed_int_ids.
  - split; vm_compute; reflexivity.
  - discriminate.
  - split; vm_compute; reflexivity.
Defined.

End CreateThenQuery.

Section Resorting.

(** A sorted list is left as it is by the stable sort. *)
Lemma sort_asc_fixed {A : Type} (l : list (string * A)) :
  StronglySorted key_le l → sort_asc l = l.
Proof.
  induction 1 as [|x l Hs IH Hx]; cbn [sort_asc]; [reflexivity|].
  rewrite IH. destruct l as [|y l]; [reflexivity|].
  apply Forall_cons in Hx as [Hxy _]. cbn [insert_sorted].
  unfold key_le in Hxy. rewrite Hxy. reflexivity.
Qed.

Lemma keyed_snd (f : string) (l : list (string * dict)) :
  Forall (λ x, x.1 = key_of f x.2) l → List.map (keyed f) (List.map snd l) = l.
Proof.
  induction 1 as [|[k p] l Hx _ IH]; cbn [List.map]; [reflexivity|].
  rewrite IH. unfold keyed. cbn [fst snd] in *. rewrite <- Hx. reflexivity.
Qed.

(** X10: on records with text fields, sorting what [sort_posts] returned
    once more by the same field and direction changes nothing: a sorted
    listing is a fixed point of the sort, ties included. *)
Theorem resorting_changes_nothing (f d : string) (posts : list dict)
    (Hf : f = "title" ∨ f = "content") (Ht : Forall text_post posts) :
  ∃ l, sort_posts posts f d = Ok l ∧ sort_posts l f d = Ok l.
Proof.
  set (ks := List.map (keyed f) posts).
  assert (Forall (λ x : string * dict, x.1 = key_of f x.2) (sort_asc ks)) as Hasc.
  { apply (Permutation_Forall (Permutation_sym (sort_asc_perm ks))), keyed_coherent. }
  assert (Forall (λ x : string * dict, x.1 = key_of f x.2)
            (List.rev (sort_asc (List.rev ks)))) as Hdesc.
  { apply (Permutation_Forall (Permutation_rev _)).
    apply (Permutation_Forall (Permutation_sym (sort_asc_perm (List.rev ks)))).
    apply (Permutation_Forall (Permutation_rev ks)), keyed_coherent. }
  rewrite (sort_posts_text f Hf posts d Ht). fold ks.
  eexists. split; [reflexivity|].
  destruct (String.eqb d "desc") eqn:Hd.
  - assert (Forall text_post (List.map snd (List.rev (sort_asc (List.rev ks))))) as Ht'.
    { eapply Permutation_Forall; [|exact Ht]. symmetry.
      rewrite <- Permutation_rev, sort_asc_perm, <- Permutation_rev.
      unfold ks. rewrite snd_keyed. reflexivity. }
    rewrite (sort_posts_text f Hf _ d Ht'), Hd.
    rewrite (keyed_snd f _ Hdesc), List.rev_involutive.
    rewrite (sort_asc_fixed _ (sort_asc_sorted (List.rev ks))). reflexivity.
  - assert (Forall text_post (List.map snd (sort_asc ks))) as Ht'.
    { eapply Permutation_Forall; [|exact Ht]. symmetry.
      rewrite sort_asc_perm. unfold ks. rewrite snd_keyed. reflexivity. }
    rewrite (sort_posts_text f Hf _ d Ht'), Hd.
    rewrite (keyed_snd f _ Hasc).
    rewrite (sort_asc_fixed _ (sort_asc_sorted ks)). reflexivity.
Qed.

Lemma resorting_changes_nothing_witness :
  ∃ l, sort_posts POSTS "title" "desc" = Ok l ∧ sort_posts l "title" "desc" = Ok l.
Proof.
  apply (resorting_changes_nothing "title" "desc" POSTS).
  - left. reflexivity.
  - exact seed_text_posts.
Defined.

End Resorting.

Section LetterCase.

Lemma lower_ascii_twice (c : ascii) : lower_ascii (lower_ascii c) = lower_ascii c.
Proof. destruct c as [[] [] [] [] [] [] [] []]; vm_compute; reflexivity. Qed.

Lemma lower_twice (s : string) : lower (lower s) = lower s.
Proof.
  induction s as [|c s IH]; cbn [lower]; [reflexivity|].
  rewrite lower_ascii_twice, IH. reflexivity.
Qed.

(** X11: the letter case of a search query is irrelevant: replacing the
    title query or the content query by its lower-cased form gives the same
    answer, on every store, raising included. *)
Theorem search_ignores_query_case (args : gmap string string) (k q : string)
    (posts : list dict)
    (Hk : k = "title" ∨ k = "content") (Hq : args !! k = Some q) :
  search (<[ k := lower q ]> args) posts = search args posts.
Proof.
  unfold search. destruct Hk as [-> | ->].
  - rewrite lookup_insert_eq, lookup_insert_ne by discriminate. rewrite Hq.
    change (default "" (Some (lower q))) with (lower q).
    change (default "" (Some q)) with q.
    rewrite lower_twice. reflexivity.
  - rewrite lookup_insert_eq, lookup_insert_ne by discriminate. rewrite Hq.
    change (default "" (Some (lower q))) with (lower q).
    change (default "" (Some q)) with q.
    rewrite lower_twice. reflexivity.
Qed.

Lemma search_ignores_query_case_witness :
  search (<[ "title" := lower "PyThOn" ]> {[ "title" := "PyThOn" ]}) POSTS =
  search {[ "title" := "PyThOn" ]} POSTS.
Proof.
  apply (search_ignores_query_case {[ "title" := "PyThOn" ]} "title" "PyThOn" POSTS).
  - left. reflexivity.
  - reflexivity.
Defined.

(** X12: the letter case of the sort direction is irrelevant, while the
    sort field is compared as it is: a list call answers the same when its
    direction is replaced by the lower-cased direction, and a sort field
    that differs from [title] and [content] only in case is refused. *)
Theorem list_ignores_direction_case (args : gmap string string) (d : string)
    (posts : list dict) (Hd : args !! "direction" = Some d) :
  handle_posts (GET (<[ "direction" := lower d ]> args)) posts =
    handle_posts (GET args) posts ∧
  status (handle_posts (GET (<[ "sort" := "Title" ]> args)) posts) = Some 400.
Proof.
  split.
  - unfold handle_posts.
    rewrite lookup_insert_eq, lookup_insert_ne by discriminate. rewrite Hd.
    change (default "asc" (Some (lower d))) with (lower d).
    change (default "asc" (Some d)) with d.
    rewrite lower_twice. reflexivity.
  - unfold handle_posts. rewrite lookup_insert_eq. reflexivity.
Qed.

Lemma list_ignores_direction_case_witness :
  handle_posts (GET (<[ "direction" := lower "DESC" ]>
                       {[ "sort" := "title"; "direction" := "DESC" ]})) POSTS =
    handle_posts (GET {[ "sort" := "title"; "direction" := "DESC" ]}) POSTS ∧
  status (handle_posts (GET (<[ "sort" := "Title" ]>
                       {[ "sort" := "title"; "direction" := "DESC" ]})) POSTS) = Some 400.
Proof.
  apply (list_ignores_direction_case {[ "sort" := "title"; "direction" := "DESC" ]} "DESC" POSTS).
  reflexivity.
Defined.

End LetterCase.

(** ** Where the handlers raise *)

Section UncaughtExceptions.

(** C9: the claim fails on the code for a create without an object to read
    the title from.  When the body decodes to [null] the title is missing,
    yet the handler does not answer 400 [Missing Title]: [new_post.get]
    raises, on every store, and the store is left as it was.  ([update]
    guards the same case with [if not new_details].) *)
Theorem create_with_null_body_raises (posts : list dict) :
  handle_posts (POST None) posts = (Raised, posts) ∧
  status (handle_posts (POST None) posts) ≠ Some 400.
Proof.
  unfold status, handle_posts. destruct (next_id posts); split; try reflexivity; discriminate.
Qed.

(** C7: the claim fails on the code for a store that a create can build.
    The create of a record whose title is the number 5 answers 201 on the
    seed; on the store it leaves, a search for the title query [a] does not
    answer the matching records: [post['title'].lower()] raises. *)
Theorem search_raises_on_number_title :
  handle_posts (POST (Some {[ "title" := JInt 5; "content" := JStr "Y" ]})) POSTS =
    (Ok (message "Created", 201),
     POSTS ++ [ {[ "id" := JInt 23; "title" := JInt 5; "content" := JStr "Y" ]} ]) ∧
  search {[ "title" := "a" ]}
    (POSTS ++ [ {[ "id" := JInt 23; "title" := JInt 5; "content" := JStr "Y" ]} ]) =
    (Raised, POSTS ++ [ {[ "id" := JInt 23; "title" := JInt 5; "content" := JStr "Y" ]} ]) ∧
  status (search {[ "title" := "a" ]}
    (POSTS ++ [ {[ "id" := JInt 23; "title" := JInt 5; "content" := JStr "Y" ]} ])) ≠ Some 200.
Proof.
  assert (search {[ "title" := "a" ]}
            (POSTS ++ [ {[ "id" := JInt 23; "title" := JInt 5; "content" := JStr "Y" ]} ]) =
          (Raised, POSTS ++ [ {[ "id" := JInt 23; "title" := JInt 5; "content" := JStr "Y" ]} ]))
    as Hsearch.
  { unfold search. rewrite lookup_singleton_eq.
    change (lower (default "" (Some "a"))) with "a".
    rewrite search_loop_raises; [reflexivity | discriminate |].
    apply Exists_app. right. constructor. intros [s Hs].
    vm_compute in Hs. discriminate Hs. }
  split; [apply create_valid; [exact seed_next_id | vm_compute; reflexivity..]|].
  split; [exact Hsearch|].
  unfold status. rewrite Hsearch. discriminate.
Qed.

End UncaughtExceptions.
